(** * ReQueue Dashboard: a shallow embedding of [src/index.js]

    The dashboard is a thin server in front of an external queue engine
    (the [requeue] package).  This development embeds the request handlers
    of [createDashboard], the statistics aggregation [getSystemStats], the
    socket.io connection handler and the engine-event relay, and proves
    the properties the specification states about them.

    Conventions of the embedding:
    - JSON values the handlers inspect are [jsval]; JSON objects whose
      fields are only passed through are [gmap string jsval];
    - an [await qm.f(...)] is a call of the matching field of the record
      [Engine]: the engine is opaque, a call either resolves with a value
      or rejects with an error message, and its answers do not change
      while one handler runs;
    - a handler is a computation in the monad [M]: it threads the local
      mutable variables of the JavaScript function (counters, the array
      being filled) and the log of engine calls made so far, and it
      either returns or throws.  A [throw] keeps the locals and the log,
      which is what a JavaScript [try]/[catch] observes. *)

From stdpp Require Import gmap strings list sorting.
From Stdlib Require Import ZArith Lia Ascii.

Local Open Scope string_scope.
Local Open Scope Z_scope.
Local Open Scope list_scope.

(** ** JavaScript values *)

Inductive jsval : Type :=
| JUndefined
| JNull
| JBool (b : bool)
| JNum (n : Z)
| JStr (s : string).

#[global] Instance jsval_eq_dec : EqDecision jsval.
Proof. solve_decision. Defined.

(** [ToBoolean]: what [v || d] and [!v] test. *)
Definition truthy (v : jsval) : bool :=
  match v with
  | JUndefined | JNull => false
  | JBool b => b
  | JNum n => negb (Z.eqb n 0)
  | JStr s => negb (String.eqb s "")
  end.

(** [a || b] on values. *)
Definition js_or (a b : jsval) : jsval := if truthy a then a else b.

(** [x || d] where [x] is a numeric field that may be missing. *)
Definition num_or (x : option Z) (d : Z) : Z :=
  match x with
  | Some n => if Z.eqb n 0 then d else n
  | None => d
  end.

(** Results of [parseInt]: an integer or [NaN]. *)
Inductive jsnum : Type :=
| NaN
| Int (z : Z).

#[global] Instance jsnum_eq_dec : EqDecision jsnum.
Proof. solve_decision. Defined.

(** [n - k] for an integer literal [k]. *)
Definition num_sub (n : jsnum) (k : Z) : jsnum :=
  match n with
  | NaN => NaN
  | Int z => Int (z - k)
  end.

(** ** The data the engine hands out *)

(** A job (queue item).  [job_addedAt] is the creation instant in
    milliseconds, the number [new Date(job.addedAt)] denotes. *)
Record Job : Type := {
  job_id : string;
  job_status : string;
  job_addedAt : Z;
  job_fields : gmap string jsval
}.

Record Queue : Type := {
  queue_id : string;
  queue_name : string;
  queue_fields : gmap string jsval
}.

(** The answer of [qm.getAllQueues]: [{ queues, total }]. *)
Record QueueListing : Type := {
  queues : list Queue;
  total : option Z
}.

(** The answer of [qm.getQueueStats]. *)
Record QueueStats : Type := {
  itemCount : option Z
}.

(** The answer of [qm.getSystemStats]: the fields of its [system] object
    and its other top-level fields. *)
Record EngineStats : Type := {
  es_top : gmap string jsval;
  es_system : gmap string jsval
}.

(** ** Promises and the engine *)

Inductive outcome (A : Type) : Type :=
| Returned (a : A)
| Thrown (message : string).
Arguments Returned {A} a.
Arguments Thrown {A} message.

Record Engine : Type := {
  eventEmitter : bool;
  qm_healthCheck : outcome (gmap string jsval);
  qm_getSystemStats : outcome EngineStats;
  qm_getAllQueues : Z -> outcome QueueListing;
  qm_getQueueStats : string -> outcome QueueStats;
  qm_getQueueItems : string -> Z -> jsnum -> outcome (list Job);
  qm_createQueue : jsval -> jsval -> jsval -> jsval -> outcome (gmap string jsval);
  qm_deleteQueue : string -> outcome unit
}.

(** One entry of the call log per engine method invoked. *)
Inductive EngineCall : Type :=
| CallHealthCheck
| CallGetSystemStats
| CallGetAllQueues (limit : Z)
| CallGetQueueStats (id : string)
| CallGetQueueItems (id : string) (start : Z) (stop : jsnum)
| CallCreateQueue (name queueId description maxSize : jsval)
| CallDeleteQueue (id : string).

#[global] Instance EngineCall_eq_dec : EqDecision EngineCall.
Proof. solve_decision. Defined.

Definition is_mutation (c : EngineCall) : bool :=
  match c with
  | CallCreateQueue _ _ _ _ | CallDeleteQueue _ => true
  | _ => false
  end.

Definition is_listing (c : EngineCall) : bool :=
  match c with
  | CallGetAllQueues _ => true
  | _ => false
  end.

(** ** The handler monad *)

Definition M (S A : Type) : Type :=
  S -> list EngineCall -> outcome A * S * list EngineCall.

Section Monad.
Context {S : Type}.

Definition ret {A} (a : A) : M S A := fun s log => (Returned a, s, log).

Definition throw {A} (message : string) : M S A :=
  fun s log => (Thrown message, s, log).

Definition bind {A B} (m : M S A) (k : A -> M S B) : M S B :=
  fun s log =>
    match m s log with
    | (Returned a, s', log') => k a s' log'
    | (Thrown e, s', log') => (Thrown e, s', log')
    end.

(** [try { m } catch (error) { h error.message }] *)
Definition try_catch {A} (m : M S A) (h : string -> M S A) : M S A :=
  fun s log =>
    match m s log with
    | (Returned a, s', log') => (Returned a, s', log')
    | (Thrown e, s', log') => h e s' log'
    end.

Definition get : M S S := fun s log => (Returned s, s, log).
Definition put (s : S) : M S unit := fun _ log => (Returned tt, s, log).
Definition modify (f : S -> S) : M S unit := fun s log => (Returned tt, f s, log).

(** [await qm.f(...)]: the call is logged, its promise settles. *)
Definition await {A} (c : EngineCall) (r : outcome A) : M S A :=
  fun s log => (r, s, log ++ [c]).

(** [for (const x of l) { body x }] and [l.forEach(body)]. *)
Fixpoint for_of {X} (l : list X) (body : X -> M S unit) : M S unit :=
  match l with
  | [] => ret tt
  | x :: l' => bind (body x) (fun _ => for_of l' body)
  end.
End Monad.

(** A call of a function that has locals of its own. *)
Definition call_fn {S S' A} (locals : S') (m : M S' A) : M S A :=
  fun s log =>
    match m locals log with
    | (r, _, log') => (r, s, log')
    end.

Notation "'let*' x ':=' m 'in' k" := (bind m (fun x => k))
  (at level 10, x name, m at level 100, k at level 200).
Notation "'do*' m 'in' k" := (bind m (fun _ => k))
  (at level 10, m at level 100, k at level 200).

(** ** Engine calls *)

Section EngineCalls.
Context {S : Type} (qm : Engine).

Definition healthCheck : M S (gmap string jsval) :=
  await CallHealthCheck (qm_healthCheck qm).
Definition engineSystemStats : M S EngineStats :=
  await CallGetSystemStats (qm_getSystemStats qm).
Definition getAllQueues (limit : Z) : M S QueueListing :=
  await (CallGetAllQueues limit) (qm_getAllQueues qm limit).
Definition getQueueStats (id : string) : M S QueueStats :=
  await (CallGetQueueStats id) (qm_getQueueStats qm id).
Definition getQueueItems (id : string) (start : Z) (stop : jsnum) : M S (list Job) :=
  await (CallGetQueueItems id start stop) (qm_getQueueItems qm id start stop).
Definition createQueue (name queueId description maxSize : jsval)
  : M S (gmap string jsval) :=
  await (CallCreateQueue name queueId description maxSize)
        (qm_createQueue qm name queueId description maxSize).
Definition deleteQueue (id : string) : M S unit :=
  await (CallDeleteQueue id) (qm_deleteQueue qm id).
End EngineCalls.

(** ** [getSystemStats] *)

(** The three [let] counters of [getSystemStats]. *)
Record Counters : Type := {
  totalJobs : Z;
  activeJobs : Z;
  failedJobs : Z
}.

Definition zero_counters : Counters :=
  {| totalJobs := 0; activeJobs := 0; failedJobs := 0 |}.

Definition add_total (n : Z) (c : Counters) : Counters :=
  {| totalJobs := totalJobs c + n; activeJobs := activeJobs c; failedJobs := failedJobs c |}.
Definition incr_active (c : Counters) : Counters :=
  {| totalJobs := totalJobs c; activeJobs := activeJobs c + 1; failedJobs := failedJobs c |}.
Definition incr_failed (c : Counters) : Counters :=
  {| totalJobs := totalJobs c; activeJobs := activeJobs c; failedJobs := failedJobs c + 1 |}.

(** The body of [jobs.forEach(job => ...)]. *)
Definition tally_job (job : Job) : M Counters unit :=
  if String.eqb (job_status job) "processing" || String.eqb (job_status job) "pending"
  then modify incr_active
  else if String.eqb (job_status job) "failed" || String.eqb (job_status job) "timed_out"
  then modify incr_failed
  else ret tt.

(** The body of [for (const queue of queues.queues)]. *)
Definition stats_of_queue (qm : Engine) (queue : Queue) : M Counters unit :=
  try_catch
    (let* queueStats := getQueueStats qm (queue_id queue) in
     do* modify (add_total (num_or (itemCount queueStats) 0)) in
     let* jobs := getQueueItems qm (queue_id queue) 0 (Int 1000) in
     for_of jobs tally_job)
    (fun _ => ret tt).

(** The returned object: [{ ...systemStats, system: { ... } }]. *)
Record Snapshot : Type := {
  snap_top : gmap string jsval;
  snap_system : gmap string jsval
}.

Definition system_fields (base : gmap string jsval)
    (c : Counters) (totalQueues : Z) (clients : Z) : gmap string jsval :=
  <["connectedClients" := JNum clients]>
    (<["totalQueues" := JNum totalQueues]>
      (<["failedJobs" := JNum (failedJobs c)]>
        (<["activeJobs" := JNum (activeJobs c)]>
          (<["totalJobs" := JNum (totalJobs c)]> base)))).

Definition getSystemStats (qm : option Engine) (connectedClients : gset string)
  : M Counters Snapshot :=
  match qm with
  | None =>
      ret {| snap_top := ∅;
             snap_system := system_fields ∅ zero_counters 0
                              (Z.of_nat (size connectedClients)) |}
  | Some qm =>
      try_catch
        (let* systemStats := engineSystemStats qm in
         let* listing := getAllQueues qm 1000 in
         do* put zero_counters in
         do* for_of (queues listing) (stats_of_queue qm) in
         let* c := get in
         ret {| snap_top := es_top systemStats;
                snap_system := system_fields (es_system systemStats) c
                                 (num_or (total listing) 0)
                                 (Z.of_nat (size connectedClients)) |})
        (fun e => throw e)
  end.

(** ** [parseInt], [slice] and [sort] *)

Definition is_space (c : ascii) : bool :=
  let n := nat_of_ascii c in
  (Nat.eqb n 32 || (Nat.leb 9 n && Nat.leb n 13))%bool.

Fixpoint skip_spaces (s : string) : string :=
  match s with
  | String c s' => if is_space c then skip_spaces s' else s
  | EmptyString => s
  end.

(** The value of [c] as a digit in the given radix (10 or 16). *)
Definition digit_value (radix : Z) (c : ascii) : option Z :=
  let n := Z.of_nat (nat_of_ascii c) in
  let d := if (48 <=? n) && (n <=? 57) then Some (n - 48)
           else if (97 <=? n) && (n <=? 102) then Some (n - 87)
           else if (65 <=? n) && (n <=? 70) then Some (n - 55)
           else None in
  match d with
  | Some v => if v <? radix then Some v else None
  | None => None
  end.

(** The longest prefix of digits, read as a number; [acc] is [None]
    until a digit has been seen. *)
Fixpoint read_digits (radix : Z) (s : string) (acc : option Z) : option Z :=
  match s with
  | String c s' =>
      match digit_value radix c with
      | Some d => read_digits radix s' (Some (radix * default 0 acc + d))
      | None => acc
      end
  | EmptyString => acc
  end.

Definition parseInt_string (s : string) : jsnum :=
  let s1 := skip_spaces s in
  let '(sign, s2) :=
    match s1 with
    | String "-" r => (-1, r)
    | String "+" r => (1, r)
    | _ => (1, s1)
    end in
  let '(radix, s3) :=
    match s2 with
    | String "0" (String "x" r) => (16, r)
    | String "0" (String "X" r) => (16, r)
    | _ => (10, s2)
    end in
  match read_digits radix s3 None with
  | Some n => Int (sign * n)
  | None => NaN
  end.

(** [parseInt(v)]: the argument is converted to a string first; the
    strings ["undefined"], ["null"], ["true"] and ["false"] start with no
    digit. *)
Definition parseInt (v : jsval) : jsnum :=
  match v with
  | JStr s => parseInt_string s
  | JNum n => Int n
  | JUndefined | JNull | JBool _ => NaN
  end.

(** [const { limit = d } = req.query]. *)
Definition with_default (v : jsval) (d : Z) : jsval :=
  match v with
  | JUndefined => JNum d
  | _ => v
  end.

(** [l.slice(0, stop)]: [NaN] counts as 0, a negative [stop] counts from
    the end of the array. *)
Definition slice0 {A} (l : list A) (stop : jsnum) : list A :=
  let len := Z.of_nat (length l) in
  let final :=
    match stop with
    | NaN => 0
    | Int z => if z <? 0 then Z.max (len + z) 0 else Z.min z len
    end in
  take (Z.to_nat final) l.

(** [l.sort(cmp)]: the sort of the language is stable; the order it
    produces is the one of this insertion sort. *)
Section Sort.
Context {A : Type} (cmp : A -> A -> Z).

Fixpoint sort_insert (x : A) (l : list A) : list A :=
  match l with
  | [] => [x]
  | y :: l' => if cmp x y <=? 0 then x :: l else y :: sort_insert x l'
  end.

Definition array_sort (l : list A) : list A := foldr sort_insert [] l.
End Sort.

(** ** Requests and responses *)

Record ValidationError : Type := {
  ve_param : string;
  ve_msg : string;
  ve_value : jsval
}.

Record AnnotatedJob : Type := {
  aj_job : Job;
  aj_queueId : string;
  aj_queueName : string
}.

Record Activity : Type := {
  act_type : string;
  act_description : string;
  act_status : string;
  act_timestamp : Z;
  act_queueId : string
}.

Inductive Payload : Type :=
| PObject (o : gmap string jsval)
| PStats (s : Snapshot)
| PQueues (l : QueueListing)
| PErrors (errors : list ValidationError)
| PJobs (l : list AnnotatedJob)
| PActivity (l : list Activity).

Record Response : Type := {
  status : Z;
  payload : Payload
}.

(** [res.json(p)] and [res.status(code).json(p)]. *)
Definition json (p : Payload) : Response := {| status := 200; payload := p |}.
Definition status_json (code : Z) (p : Payload) : Response :=
  {| status := code; payload := p |}.

(** [{ error: message }] *)
Definition error_object (message : string) : Payload :=
  PObject {[ "error" := JStr message ]}.

(** A field of [req.body]; a missing field reads as [undefined]. *)
Definition body_field (body : gmap string jsval) (field : string) : jsval :=
  default JUndefined (body !! field).

(** express-validator: [notEmpty()] fails on the values whose string
    form is empty, which are [undefined], [null] and [""]. *)
Definition isEmpty (v : jsval) : bool :=
  match v with
  | JUndefined | JNull => true
  | JStr s => String.eqb s ""
  | JBool _ | JNum _ => false
  end.

(** [body(field).notEmpty().withMessage(msg)] *)
Definition notEmpty (field msg : string) (body : gmap string jsval)
  : list ValidationError :=
  let v := body_field body field in
  if isEmpty v then [ {| ve_param := field; ve_msg := msg; ve_value := v |} ] else [].

(** [validationResult(req).array()] for the two checks of POST /api/queues. *)
Definition validationResult (body : gmap string jsval) : list ValidationError :=
  notEmpty "name" "Queue name is required" body
  ++ notEmpty "queueId" "Queue ID is required" body.

Definition errors_isEmpty (errors : list ValidationError) : bool :=
  match errors with
  | [] => true
  | _ => false
  end.

(** ** The HTTP handlers of [createDashboard] *)

(** GET /api/health *)
Definition get_api_health (qm : option Engine) : M unit Response :=
  try_catch
    (let* health :=
       match qm with
       | Some qm => healthCheck qm
       | None => ret {[ "status" := JStr "demo" ]}
       end in
     ret (json (PObject health)))
    (fun e => ret (status_json 500
       (PObject (<["error" := JStr e]> {[ "status" := JStr "unhealthy" ]})))).

(** GET /api/system/stats *)
Definition get_api_system_stats (qm : option Engine) (connectedClients : gset string)
  : M unit Response :=
  try_catch
    (let* stats := call_fn zero_counters (getSystemStats qm connectedClients) in
     ret (json (PStats stats)))
    (fun e => ret (status_json 500 (error_object e))).

(** GET /api/queues *)
Definition get_api_queues (qm : option Engine) : M unit Response :=
  try_catch
    match qm with
    | None => ret (json (PQueues {| queues := []; total := Some 0 |}))
    | Some qm =>
        let* listing := getAllQueues qm 1000 in
        ret (json (PQueues listing))
    end
    (fun e => ret (status_json 500 (error_object e))).

(** POST /api/queues *)
Definition post_api_queues (qm : option Engine) (body : gmap string jsval)
  : M unit Response :=
  try_catch
    (let errors := validationResult body in
     if negb (errors_isEmpty errors)
     then ret (status_json 400 (PErrors errors))
     else
       match qm with
       | None => ret (status_json 503 (error_object "QueueManager not available"))
       | Some qm =>
           let name := body_field body "name" in
           let queueId := body_field body "queueId" in
           let description := body_field body "description" in
           let maxSize := body_field body "maxSize" in
           let* queue := createQueue qm name queueId description
                           (js_or maxSize (JNum 10000)) in
           ret (json (PObject queue))
       end)
    (fun e => ret (status_json 400 (error_object e))).

(** DELETE /api/queues/:queueId *)
Definition delete_api_queue (qm : option Engine) (queueId : string) : M unit Response :=
  try_catch
    match qm with
    | None => ret (status_json 503 (error_object "QueueManager not available"))
    | Some qm =>
        do* deleteQueue qm queueId in
        ret (json (PObject {[ "success" := JBool true ]}))
    end
    (fun e => ret (status_json 400 (error_object e))).

(** [{ ...job, queueId: queue.id, queueName: queue.name }] *)
Definition annotate (queue : Queue) (job : Job) : AnnotatedJob :=
  {| aj_job := job; aj_queueId := queue_id queue; aj_queueName := queue_name queue |}.

(** [(a, b) => new Date(b.addedAt) - new Date(a.addedAt)] *)
Definition newest_job_first (a b : AnnotatedJob) : Z :=
  job_addedAt (aj_job b) - job_addedAt (aj_job a).

(** The body of the queue loop of GET /api/jobs; the local is [allJobs]. *)
Definition jobs_of_queue (qm : Engine) (limit : jsval) (queue : Queue)
  : M (list AnnotatedJob) unit :=
  try_catch
    (let* jobs := getQueueItems qm (queue_id queue) 0 (num_sub (parseInt limit) 1) in
     for_of jobs (fun job => modify (fun allJobs => allJobs ++ [annotate queue job])))
    (fun _ => ret tt).

(** GET /api/jobs; [query_limit] is [req.query.limit]. *)
Definition get_api_jobs (qm : option Engine) (query_limit : jsval)
  : M (list AnnotatedJob) Response :=
  try_catch
    match qm with
    | None => ret (json (PJobs []))
    | Some qm =>
        let limit := with_default query_limit 100 in
        do* put [] in
        let* listing := getAllQueues qm 1000 in
        do* for_of (queues listing) (jobs_of_queue qm limit) in
        do* modify (array_sort newest_job_first) in
        let* allJobs := get in
        ret (json (PJobs (slice0 allJobs (parseInt limit))))
    end
    (fun e => ret (status_json 500 (error_object e))).

(** The object pushed by GET /api/activity/recent. *)
Definition activity_of (queue : Queue) (job : Job) : Activity :=
  {| act_type := "Job";
     act_description := "Job " +:+ job_id job +:+ " in " +:+ queue_name queue;
     act_status := job_status job;
     act_timestamp := job_addedAt job;
     act_queueId := queue_id queue |}.

(** [(a, b) => new Date(b.timestamp) - new Date(a.timestamp)] *)
Definition newest_activity_first (a b : Activity) : Z :=
  act_timestamp b - act_timestamp a.

(** The body of the queue loop of GET /api/activity/recent; the local is
    [activity]. *)
Definition activity_of_queue (qm : Engine) (queue : Queue) : M (list Activity) unit :=
  try_catch
    (let* jobs := getQueueItems qm (queue_id queue) 0 (Int 10) in
     for_of jobs (fun job => modify (fun activity => activity ++ [activity_of queue job])))
    (fun _ => ret tt).

(** GET /api/activity/recent *)
Definition get_api_activity_recent (qm : option Engine) (query_limit : jsval)
  : M (list Activity) Response :=
  try_catch
    match qm with
    | None => ret (json (PActivity []))
    | Some qm =>
        let limit := with_default query_limit 20 in
        do* put [] in
        let* listing := getAllQueues qm 1000 in
        do* for_of (queues listing) (activity_of_queue qm) in
        do* modify (array_sort newest_activity_first) in
        let* activity := get in
        ret (json (PActivity (slice0 activity (parseInt limit))))
    end
    (fun e => ret (status_json 500 (error_object e))).

(** Running a handler on a request: the response (or the error that
    escaped), and the engine calls it made. *)
Definition run {S A} (m : M S A) (locals : S) : outcome A * list EngineCall :=
  match m locals [] with
  | (r, _, log) => (r, log)
  end.

(** ** The standalone server

    The older standalone server of the repository has its own copies of
    [getSystemStats] and of the POST /api/queues handler.  It exits when
    the engine client cannot be constructed, so its handlers always have
    an engine; it has no request validation. *)
Module Legacy.
Definition getSystemStats (qm : Engine) (connectedClients : gset string)
  : M Counters Snapshot :=
  try_catch
    (let* systemStats := engineSystemStats qm in
     let* listing := getAllQueues qm 1000 in
     do* put zero_counters in
     do* for_of (queues listing) (stats_of_queue qm) in
     let* c := get in
     ret {| snap_top := es_top systemStats;
            snap_system := system_fields (es_system systemStats) c
                             (num_or (total listing) 0)
                             (Z.of_nat (size connectedClients)) |})
    (fun e => throw e).

Definition post_api_queues (qm : Engine) (body : gmap string jsval) : M unit Response :=
  try_catch
    (let name := body_field body "name" in
     let queueId := body_field body "queueId" in
     let description := body_field body "description" in
     let maxSize := body_field body "maxSize" in
     let* queue := createQueue qm name queueId description
                     (js_or maxSize (JNum 10000)) in
     ret (json (PObject queue)))
    (fun e => ret (status_json 400 (error_object e))).
End Legacy.

(** ** The real-time side: connections and the event relay *)

(** What the server sends over a socket: the event name and its
    argument. *)
Inductive Message : Type :=
| MConnected (message : string)
| MStatsUpdate (stats : Snapshot)
| MError (message : string)
| MEvent (name : string) (data : jsval).

(** A message sent to the socket with the given id. *)
Definition Delivery : Type := string * Message.

(** [connectedClients] is the dashboard's own set; [sockets] and [rooms]
    are the state socket.io keeps: the sockets of the namespace and, per
    room, the sockets that joined it. *)
Record Server : Type := {
  connectedClients : gset string;
  sockets : gset string;
  rooms : gmap string (gset string)
}.

Definition initial_server : Server :=
  {| connectedClients := ∅; sockets := ∅; rooms := ∅ |}.

(** The size the stats report. *)
Definition client_count (st : Server) : Z := Z.of_nat (size (connectedClients st)).

(** [socket.join(room)] and [socket.leave(room)]. *)
Definition join (id room : string) (r : gmap string (gset string))
  : gmap string (gset string) :=
  <[room := {[ id ]} ∪ default ∅ (r !! room)]> r.
Definition leave (id room : string) (r : gmap string (gset string))
  : gmap string (gset string) :=
  <[room := default ∅ (r !! room) ∖ {[ id ]}]> r.

(** What a client can do on its connection. *)
Inductive ClientEvent : Type :=
| Connect (id : string)
| GetStats (id : string)
| SubscribeQueue (id queueId : string)
| UnsubscribeQueue (id queueId : string)
| Disconnect (id : string).

Section Realtime.
(** [features.websocket] and the engine client (null in demo mode). *)
Variable websocket : bool.
Variable qm : option Engine.

(** socket.io opens and closes the socket; the handlers registered by
    [io.on('connection', ...)] run only when [features.websocket] is
    set. *)
Definition on_client_event (ev : ClientEvent) (st : Server) : Server * list Delivery :=
  match ev with
  | Connect id =>
      let st1 := {| connectedClients := connectedClients st;
                    sockets := {[ id ]} ∪ sockets st;
                    rooms := rooms st |} in
      if websocket
      then ({| connectedClients := {[ id ]} ∪ connectedClients st1;
               sockets := sockets st1;
               rooms := rooms st1 |},
            [ (id, MConnected "Connected to ReQueue Dashboard") ])
      else (st1, [])
  | GetStats id =>
      if websocket
      then match run (getSystemStats qm (connectedClients st)) zero_counters with
           | (Returned stats, _) => (st, [ (id, MStatsUpdate stats) ])
           | (Thrown _, _) => (st, [ (id, MError "Failed to get stats") ])
           end
      else (st, [])
  | SubscribeQueue id queueId =>
      if websocket
      then ({| connectedClients := connectedClients st;
               sockets := sockets st;
               rooms := join id ("queue:" +:+ queueId) (rooms st) |}, [])
      else (st, [])
  | UnsubscribeQueue id queueId =>
      if websocket
      then ({| connectedClients := connectedClients st;
               sockets := sockets st;
               rooms := leave id ("queue:" +:+ queueId) (rooms st) |}, [])
      else (st, [])
  | Disconnect id =>
      let st1 := {| connectedClients := connectedClients st;
                    sockets := sockets st ∖ {[ id ]};
                    rooms := (fun members => members ∖ {[ id ]}) <$> rooms st |} in
      if websocket
      then ({| connectedClients := connectedClients st1 ∖ {[ id ]};
               sockets := sockets st1;
               rooms := rooms st1 |}, [])
      else (st1, [])
  end.

Fixpoint on_client_events (trace : list ClientEvent) (st : Server) : Server :=
  match trace with
  | [] => st
  | ev :: trace' => on_client_events trace' (fst (on_client_event ev st))
  end.

(** [io.emit(name, data)]: to every socket of the namespace. *)
Definition io_emit (name : string) (data : jsval) (st : Server) : list Delivery :=
  (fun id => (id, MEvent name data)) <$> elements (sockets st).

(** [qm.eventEmitter.on(name, data => io.emit(name, data))] *)
Definition relay (name : string) : string * (jsval -> Server -> list Delivery) :=
  (name, fun data => io_emit name data).

(** The listeners [setupRealtimeEvents] registers on the engine's
    emitter. *)
Definition setupRealtimeEvents : list (string * (jsval -> Server -> list Delivery)) :=
  match qm with
  | None => []
  | Some e =>
      if negb (eventEmitter e) then []
      else [ relay "queueCreated"; relay "queueDeleted"; relay "queuePaused";
             relay "queueResumed"; relay "jobAdded"; relay "jobProcessed";
             relay "jobFailed"; relay "jobCancelled" ]
  end.

(** The engine emits [name] with [data]: every listener registered
    under that name runs. *)
Definition engine_emits (listeners : list (string * (jsval -> Server -> list Delivery)))
    (name : string) (data : jsval) (st : Server) : list Delivery :=
  flat_map (fun l => if String.eqb (fst l) name then snd l data st else []) listeners.
End Realtime.

(** [initializeQueueManager]: [created] is how the construction of the
    engine client ended.  The result is the value of [qm] afterwards
    ([null] in demo mode) and the listeners registered on the engine's
    emitter. *)
Definition initializeQueueManager (websocket : bool) (created : outcome Engine)
  : option Engine * list (string * (jsval -> Server -> list Delivery)) :=
  match created with
  | Returned e => (Some e, if websocket then setupRealtimeEvents (Some e) else [])
  | Thrown _ => (None, [])
  end.

(** The eight engine events the relay subscribes to. *)
Definition relayed_events : list string :=
  [ "queueCreated"; "queueDeleted"; "queuePaused"; "queueResumed";
    "jobAdded"; "jobProcessed"; "jobFailed"; "jobCancelled" ].

(** What one client event does to the number of connected clients. *)
Definition count_change (ev : ClientEvent) : Z :=
  match ev with
  | Connect _ => 1
  | Disconnect _ => -1
  | GetStats _ | SubscribeQueue _ _ | UnsubscribeQueue _ _ => 0
  end.

(** The socket an event comes from. *)
Definition socket_of (ev : ClientEvent) : string :=
  match ev with
  | Connect id | GetStats id | SubscribeQueue id _
  | UnsubscribeQueue id _ | Disconnect id => id
  end.

(** socket.io gives a new connection an id no open socket has, and only
    an open socket sends events or disconnects. *)
Definition possible (ev : ClientEvent) (st : Server) : Prop :=
  match ev with
  | Connect id => id ∉ sockets st
  | _ => socket_of ev ∈ sockets st
  end.

Fixpoint possible_trace (websocket : bool) (qm : option Engine)
    (trace : list ClientEvent) (st : Server) : Prop :=
  match trace with
  | [] => True
  | ev :: trace' =>
      possible ev st
      ∧ possible_trace websocket qm trace' (fst (on_client_event websocket qm ev st))
  end.

(** ** An in-memory engine for the concrete scenarios

    A queue is stored with its items.  An item range [start .. stop]
    includes both ends, the convention the dashboard's paging arithmetic
    relies on ([parseInt(limit) - 1] as the last index of [limit] items). *)
Module InMemory.
Record StoredQueue : Type := {
  sq_queue : Queue;
  sq_items : list Job
}.

Definition lookup_queue (store : list StoredQueue) (id : string) : option StoredQueue :=
  List.find (fun q => String.eqb (queue_id (sq_queue q)) id) store.

Definition item_range (items : list Job) (start : Z) (stop : jsnum) : list Job :=
  match stop with
  | NaN => []
  | Int e => take (Z.to_nat (e - start + 1)) (drop (Z.to_nat start) items)
  end.

Definition engine (store : list StoredQueue) : Engine :=
  {| eventEmitter := true;
     qm_healthCheck := Returned {[ "status" := JStr "healthy" ]};
     qm_getSystemStats := Returned {| es_top := ∅; es_system := ∅ |};
     qm_getAllQueues := fun limit =>
       Returned {| queues := take (Z.to_nat limit) (sq_queue <$> store);
                   total := Some (Z.of_nat (length store)) |};
     qm_getQueueStats := fun id =>
       match lookup_queue store id with
       | Some q => Returned {| itemCount := Some (Z.of_nat (length (sq_items q))) |}
       | None => Thrown "Queue not found"
       end;
     qm_getQueueItems := fun id start stop =>
       match lookup_queue store id with
       | Some q => Returned (item_range (sq_items q) start stop)
       | None => Thrown "Queue not found"
       end;
     qm_createQueue := fun name queueId description maxSize =>
       Returned (<["maxSize" := maxSize]> (<["id" := queueId]> {[ "name" := name ]}));
     qm_deleteQueue := fun id =>
       match lookup_queue store id with
       | Some _ => Returned tt
       | None => Thrown "Queue not found"
       end |}.

(** The same engine with the item fetch of queue [bad] failing. *)
Definition with_failing_items (bad : string) (e : Engine) : Engine :=
  {| eventEmitter := eventEmitter e;
     qm_healthCheck := qm_healthCheck e;
     qm_getSystemStats := qm_getSystemStats e;
     qm_getAllQueues := qm_getAllQueues e;
     qm_getQueueStats := qm_getQueueStats e;
     qm_getQueueItems := fun id start stop =>
       if String.eqb id bad then Thrown "Connection is closed"
       else qm_getQueueItems e id start stop;
     qm_createQueue := qm_createQueue e;
     qm_deleteQueue := qm_deleteQueue e |}.

(** The same engine with its own [getSystemStats] failing. *)
Definition with_failing_system_stats (e : Engine) : Engine :=
  {| eventEmitter := eventEmitter e;
     qm_healthCheck := qm_healthCheck e;
     qm_getSystemStats := Thrown "Connection is closed";
     qm_getAllQueues := qm_getAllQueues e;
     qm_getQueueStats := qm_getQueueStats e;
     qm_getQueueItems := qm_getQueueItems e;
     qm_createQueue := qm_createQueue e;
     qm_deleteQueue := qm_deleteQueue e |}.

Definition job (id status : string) (addedAt : Z) : Job :=
  {| job_id := id; job_status := status; job_addedAt := addedAt; job_fields := ∅ |}.

Definition queue (id name : string) : Queue :=
  {| queue_id := id; queue_name := name; queue_fields := ∅ |}.

(** One queue holding one job of each status. *)
Definition six_statuses : list StoredQueue :=
  [ {| sq_queue := queue "q1" "Emails";
       sq_items := [ job "j1" "pending" 1; job "j2" "processing" 2;
                     job "j3" "completed" 3; job "j4" "failed" 4;
                     job "j5" "timed_out" 5; job "j6" "cancelled" 6 ] |} ].

(** Three queues holding one job each, created at instants 10 < 20 < 30. *)
Definition three_queues : list StoredQueue :=
  [ {| sq_queue := queue "a" "Alpha"; sq_items := [ job "j1" "pending" 20 ] |};
    {| sq_queue := queue "b" "Beta"; sq_items := [ job "j2" "completed" 10 ] |};
    {| sq_queue := queue "c" "Gamma"; sq_items := [ job "j3" "failed" 30 ] |} ].

(** A queue of 1500 pending jobs. *)
Definition large_queue : list StoredQueue :=
  [ {| sq_queue := queue "big" "Backlog";
       sq_items := replicate 1500 (job "j" "pending" 0) |} ].

(** A queue of eleven jobs, created at the instants 1 to 11. *)
Definition eleven_jobs : list StoredQueue :=
  [ {| sq_queue := queue "feed" "Feed";
       sq_items :=
         (fun t => job "j" "completed" t) <$> [1; 2; 3; 4; 5; 6; 7; 8; 9; 10; 11] |} ].

(** Five queues of one job each. *)
Definition five_queues : list StoredQueue :=
  [ {| sq_queue := queue "q1" "One";
       sq_items := [ job "a" "pending" 3 ] |};
    {| sq_queue := queue "q2" "Two";
       sq_items := [ job "b" "failed" 5 ] |};
    {| sq_queue := queue "q3" "Three";
       sq_items := [ job "c" "completed" 1 ] |};
    {| sq_queue := queue "q4" "Four";
       sq_items := [ job "d" "processing" 4 ] |};
    {| sq_queue := queue "q5" "Five";
       sq_items := [ job "e" "cancelled" 2 ] |} ].
End InMemory.

(** ** The status buckets, as the specification words them *)

Inductive Bucket : Type := Active | Failed | Neither.

#[global] Instance Bucket_eq_dec : EqDecision Bucket.
Proof. solve_decision. Defined.

Definition bucket (status : string) : Bucket :=
  if decide (status = "pending" ∨ status = "processing") then Active
  else if decide (status = "failed" ∨ status = "timed_out") then Failed
  else Neither.

Definition bump (b : Bucket) (c : Counters) : Counters :=
  match b with
  | Active => incr_active c
  | Failed => incr_failed c
  | Neither => c
  end.

Definition count_bucket (b : Bucket) (jobs : list Job) : Z :=
  Z.of_nat (length (filter (fun job => bucket (job_status job) = b) jobs)).

(** What one listed queue adds to the three counters: nothing when its
    stats fetch fails; its declared item count, and the bucket counts of
    the items its item fetch returns, otherwise. *)
Definition contribution (qm : Engine) (queue : Queue) : Counters :=
  match qm_getQueueStats qm (queue_id queue) with
  | Thrown _ => zero_counters
  | Returned queueStats =>
      match qm_getQueueItems qm (queue_id queue) 0 (Int 1000) with
      | Thrown _ =>
          {| totalJobs := num_or (itemCount queueStats) 0; activeJobs := 0; failedJobs := 0 |}
      | Returned jobs =>
          {| totalJobs := num_or (itemCount queueStats) 0;
             activeJobs := count_bucket Active jobs;
             failedJobs := count_bucket Failed jobs |}
      end
  end.

Definition add_counters (c d : Counters) : Counters :=
  {| totalJobs := totalJobs c + totalJobs d;
     activeJobs := activeJobs c + activeJobs d;
     failedJobs := failedJobs c + failedJobs d |}.

Definition sum_contributions (qm : Engine) (qs : list Queue) : Counters :=
  foldr (fun queue acc => add_counters (contribution qm queue) acc) zero_counters qs.

(** The engine calls the stats loop makes for one queue. *)
Definition stats_calls (qm : Engine) (queue : Queue) : list EngineCall :=
  CallGetQueueStats (queue_id queue) ::
  match qm_getQueueStats qm (queue_id queue) with
  | Thrown _ => []
  | Returned _ => [ CallGetQueueItems (queue_id queue) 0 (Int 1000) ]
  end.

(** The sum of [f] over a list. *)
Definition Zsum {A} (f : A -> Z) (l : list A) : Z :=
  foldr (fun x acc => f x + acc) 0 l.

(** The items of a listed queue the statistics loop classifies: those its
    item fetch returns, none when one of its two fetches fails. *)
Definition classified_items (qm : Engine) (queue : Queue) : list Job :=
  match qm_getQueueStats qm (queue_id queue),
        qm_getQueueItems qm (queue_id queue) 0 (Int 1000) with
  | Returned _, Returned jobs => jobs
  | _, _ => []
  end.

(** The item count a listed queue declares, 0 when its stats fetch fails. *)
Definition declared_count (qm : Engine) (queue : Queue) : Z :=
  match qm_getQueueStats qm (queue_id queue) with
  | Returned queueStats => num_or (itemCount queueStats) 0
  | Thrown _ => 0
  end.

(** A field of the [system] object of a computed snapshot. *)
Definition stat (field : string) (r : outcome Snapshot) : option jsval :=
  match r with
  | Returned snapshot => snap_system snapshot !! field
  | Thrown _ => None
  end.

(** The annotated jobs GET /api/jobs collects from one listed queue when
    the parsed limit is [n]: none when the item fetch fails. *)
Definition collected_jobs (qm : Engine) (n : jsnum) (queue : Queue) : list AnnotatedJob :=
  match qm_getQueueItems qm (queue_id queue) 0 (num_sub n 1) with
  | Returned jobs => annotate queue <$> jobs
  | Thrown _ => []
  end.

(** The activity entries GET /api/activity/recent collects from one listed
    queue: none when the item fetch fails. *)
Definition collected_activity (qm : Engine) (queue : Queue) : list Activity :=
  match qm_getQueueItems qm (queue_id queue) 0 (Int 10) with
  | Returned jobs => activity_of queue <$> jobs
  | Thrown _ => []
  end.

(** The shape of both comparators: [(a, b) => key(b) - key(a)]. *)
Definition newest_first {A} (key : A -> Z) (a b : A) : Z := key b - key a.

(** Newest first: no element is older than its successor. *)
Definition descending {A} (key : A -> Z) : relation A := fun a b => key b <= key a.

(** ** The other routes of the standalone server

    Its read routes call the engine without a guard, and its
    /api/system/stats route has its own copy of the statistics loop,
    which does not report the connected clients. *)
Module Standalone.
Definition get_api_queues (qm : Engine) : M unit Response :=
  try_catch
    (let* listing := getAllQueues qm 1000 in
     ret (json (PQueues listing)))
    (fun e => ret (status_json 500 (error_object e))).

Definition get_api_jobs (qm : Engine) (query_limit : jsval)
  : M (list AnnotatedJob) Response :=
  try_catch
    (let limit := with_default query_limit 100 in
     do* put [] in
     let* listing := getAllQueues qm 1000 in
     do* for_of (queues listing) (jobs_of_queue qm limit) in
     do* modify (array_sort newest_job_first) in
     let* allJobs := get in
     ret (json (PJobs (slice0 allJobs (parseInt limit)))))
    (fun e => ret (status_json 500 (error_object e))).

Definition get_api_system_stats (qm : Engine) : M Counters Response :=
  try_catch
    (let* systemStats := engineSystemStats qm in
     let* listing := getAllQueues qm 1000 in
     do* put zero_counters in
     do* for_of (queues listing) (stats_of_queue qm) in
     let* c := get in
     ret (json (PStats
       {| snap_top := es_top systemStats;
          snap_system :=
            <["totalQueues" := JNum (num_or (total listing) 0)]>
              (<["failedJobs" := JNum (failedJobs c)]>
                (<["activeJobs" := JNum (activeJobs c)]>
                  (<["totalJobs" := JNum (totalJobs c)]> (es_system systemStats)))) |})))
    (fun e => ret (status_json 500 (error_object e))).

Definition get_api_activity_recent (qm : Engine) (query_limit : jsval)
  : M (list Activity) Response :=
  try_catch
    (let limit := with_default query_limit 20 in
     do* put [] in
     let* listing := getAllQueues qm 1000 in
     do* for_of (queues listing) (activity_of_queue qm) in
     do* modify (array_sort newest_activity_first) in
     let* activity := get in
     ret (json (PActivity (slice0 activity (parseInt limit)))))
    (fun e => ret (status_json 500 (error_object e))).

Definition get_api_health (qm : Engine) : M unit Response :=
  try_catch
    (let* health := healthCheck qm in
     ret (json (PObject health)))
    (fun e => ret (status_json 500
       (PObject (<["error" := JStr e]> {[ "status" := JStr "unhealthy" ]})))).
End Standalone.

(** ** The options of [createDashboard] *)

(** [options.redis] *)
Record RedisOptions : Type := {
  redis_host : jsval;
  redis_port : jsval;
  redis_db : jsval;
  redis_password : jsval
}.

(** [options.features.rateLimit] *)
Record RateLimitOptions : Type := {
  rl_windowMs : jsval;
  rl_max : jsval
}.

(** [options.features]; a field left out reads as [undefined]. *)
Record Features : Type := {
  feat_authentication : jsval;
  feat_websocket : jsval;
  feat_rateLimit : option RateLimitOptions
}.

(** The argument of [createDashboard]; [None] is a property left out. *)
Record Options : Type := {
  opt_port : jsval;
  opt_redis : option RedisOptions;
  opt_features : option Features
}.

(** What [createDashboard] fixes before any request: the port it will
    listen on, the connection parameters it hands to the engine, whether
    the real-time side is wired, and the window and cap of the rate
    limiter. *)
Record Dashboard : Type := {
  d_port : jsval;
  d_redis : RedisOptions;
  d_websocket : bool;
  d_windowMs : jsval;
  d_max : jsval
}.

Definition default_redis : RedisOptions :=
  {| redis_host := JStr "localhost"; redis_port := JNum 6379;
     redis_db := JNum 0; redis_password := JUndefined |}.

Definition default_features : Features :=
  {| feat_authentication := JBool false; feat_websocket := JBool true;
     feat_rateLimit := None |}.

(** [features.rateLimit?.field] *)
Definition rateLimit_field (features : Features) (field : RateLimitOptions -> jsval)
  : jsval :=
  match feat_rateLimit features with
  | Some r => field r
  | None => JUndefined
  end.

Definition createDashboard (options : Options) : Dashboard :=
  let port := with_default (opt_port options) 3000 in
  let redis := default default_redis (opt_redis options) in
  let features := default default_features (opt_features options) in
  {| d_port := port;
     d_redis := redis;
     d_websocket := truthy (feat_websocket features);
     d_windowMs := js_or (rateLimit_field features rl_windowMs) (JNum (15 * 60 * 1000));
     d_max := js_or (rateLimit_field features rl_max) (JNum 1000) |}.



(** ** Stopping *)

(** The lines the stopping code prints. *)
Inductive LogLine : Type :=
| ShuttingDown
| DashboardStopped
| ClosedSuccessfully
| UnhandledRejection.

(** What happens, in order, when the dashboard is stopped. *)
Inductive LifecycleEvent : Type :=
| HttpServerClosed
| EngineCloseCalled
| Logged (line : LogLine)
| Resolved
| Exited (code : Z).

#[global] Instance LogLine_eq_dec : EqDecision LogLine.
Proof. solve_decision. Defined.

#[global] Instance LifecycleEvent_eq_dec : EqDecision LifecycleEvent.
Proof. solve_decision. Defined.

(** [dashboard.stop()]: [closed] is how [qm.close()] settles.  The
    promise of [stop] is resolved in the [then] of [qm.close()], which
    does not run when that promise rejects. *)
Definition stop (qm : option Engine) (closed : outcome unit) : list LifecycleEvent :=
  HttpServerClosed ::
  match qm with
  | Some _ =>
      EngineCloseCalled ::
      match closed with
      | Returned _ => [ Logged DashboardStopped; Resolved ]
      | Thrown _ => []
      end
  | None => [ Logged DashboardStopped; Resolved ]
  end.


(** The name of the room of a queue: [`queue:${queueId}`]. *)
Definition room_of (queueId : string) : string := "queue:" +:+ queueId.

(** Whether a socket is in a room. *)
Definition in_room (id room : string) (st : Server) : Prop :=
  id ∈ default ∅ (rooms st !! room).

(** * Proofs *)

(** ** Counters *)

Lemma counters_eq (c d : Counters) :
  totalJobs c = totalJobs d -> activeJobs c = activeJobs d ->
  failedJobs c = failedJobs d -> c = d.
Proof. destruct c, d; simpl; intros; subst; reflexivity. Qed.

(** Closes goals [(r, c, log) = (r, d, log)] whose counters agree up to
    arithmetic. *)
Ltac same_state :=
  first [ reflexivity
        | apply counters_eq; simpl; lia
        | f_equal; same_state ].

Lemma add_counters_zero_r (c : Counters) : add_counters c zero_counters = c.
Proof. apply counters_eq; simpl; lia. Qed.

Lemma add_counters_zero_l (c : Counters) : add_counters zero_counters c = c.
Proof. apply counters_eq; simpl; lia. Qed.

Lemma add_counters_assoc (c d e : Counters) :
  add_counters (add_counters c d) e = add_counters c (add_counters d e).
Proof. apply counters_eq; simpl; lia. Qed.

Lemma count_bucket_nil (b : Bucket) : count_bucket b [] = 0.
Proof. reflexivity. Qed.

Lemma count_bucket_cons (b : Bucket) (job : Job) (jobs : list Job) :
  count_bucket b (job :: jobs) =
  (if decide (bucket (job_status job) = b) then 1 else 0) + count_bucket b jobs.
Proof.
  unfold count_bucket. rewrite filter_cons.
  destruct (decide (bucket (job_status job) = b)); simpl length; lia.
Qed.

Lemma count_bucket_nonneg (b : Bucket) (jobs : list Job) : 0 <= count_bucket b jobs.
Proof. unfold count_bucket. lia. Qed.

(** ** The status classification *)

Lemma bucket_active (status : string) :
  bucket status = Active <-> status = "pending" \/ status = "processing".
Proof.
  unfold bucket. repeat case_decide; split; intros; try done; tauto.
Qed.

Lemma bucket_failed (status : string) :
  bucket status = Failed <-> status = "failed" \/ status = "timed_out".
Proof.
  unfold bucket. repeat case_decide; split; intros H'; try done.
  destruct H' as [-> | ->]; destruct H as [H | H]; discriminate H.
Qed.

Lemma bucket_neither (status : string) :
  bucket status = Neither <->
  ~ (status = "pending" \/ status = "processing" \/ status = "failed" \/ status = "timed_out").
Proof.
  unfold bucket. repeat case_decide; split; intros; try done; tauto.
Qed.

Lemma tally_job_run (job : Job) (c : Counters) (log : list EngineCall) :
  tally_job job c log = (Returned tt, bump (bucket (job_status job)) c, log).
Proof.
  unfold tally_job, bucket.
  destruct (String.eqb_spec (job_status job) "processing") as [-> | Hn1]; simpl.
  { reflexivity. }
  destruct (String.eqb_spec (job_status job) "pending") as [E | Hn2]; simpl.
  { rewrite E. reflexivity. }
  rewrite (decide_False (P := _ \/ _)) by tauto.
  destruct (String.eqb_spec (job_status job) "failed") as [E | Hn3]; simpl.
  { rewrite E. reflexivity. }
  destruct (String.eqb_spec (job_status job) "timed_out") as [E | Hn4]; simpl.
  { rewrite E. reflexivity. }
  rewrite (decide_False (P := _ \/ _)) by tauto. reflexivity.
Qed.

Lemma tally_jobs_run (jobs : list Job) (c : Counters) (log : list EngineCall) :
  for_of jobs tally_job c log =
  (Returned tt,
   {| totalJobs := totalJobs c;
      activeJobs := activeJobs c + count_bucket Active jobs;
      failedJobs := failedJobs c + count_bucket Failed jobs |},
   log).
Proof.
  revert c. induction jobs as [| job jobs IH]; intros c; simpl.
  - unfold ret. rewrite !count_bucket_nil. same_state.
  - unfold bind. rewrite tally_job_run, IH, !count_bucket_cons.
    destruct (bucket (job_status job)); simpl;
      repeat case_decide; try discriminate; same_state.
Qed.

(** ** The statistics loop *)

Lemma stats_of_queue_run (qm : Engine) (queue : Queue) (c : Counters)
    (log : list EngineCall) :
  stats_of_queue qm queue c log =
  (Returned tt, add_counters c (contribution qm queue), log ++ stats_calls qm queue).
Proof.
  unfold stats_of_queue, try_catch, bind, getQueueStats, getQueueItems, await,
    modify, contribution, stats_calls.
  destruct (qm_getQueueStats qm (queue_id queue)) as [queueStats | e]; simpl.
  - destruct (qm_getQueueItems qm (queue_id queue) 0 (Int 1000)) as [jobs | e]; simpl.
    + rewrite tally_jobs_run, <- app_assoc. simpl. same_state.
    + unfold ret. rewrite <- app_assoc. simpl. same_state.
  - unfold ret. same_state.
Qed.

Lemma stats_loop_run (qm : Engine) (qs : list Queue) (c : Counters)
    (log : list EngineCall) :
  for_of qs (stats_of_queue qm) c log =
  (Returned tt, add_counters c (sum_contributions qm qs),
   log ++ flat_map (stats_calls qm) qs).
Proof.
  revert c log. induction qs as [| queue qs IH]; intros c log; simpl.
  - unfold ret. rewrite add_counters_zero_r, app_nil_r. reflexivity.
  - unfold bind. rewrite stats_of_queue_run, IH.
    rewrite add_counters_assoc, <- app_assoc. reflexivity.
Qed.

(** What [getSystemStats] does, case by case. *)
Lemma getSystemStats_run (qm : Engine) (clients : gset string) (c0 : Counters) :
  run (getSystemStats (Some qm) clients) c0 =
  match qm_getSystemStats qm with
  | Thrown e => (Thrown e, [ CallGetSystemStats ])
  | Returned systemStats =>
      match qm_getAllQueues qm 1000 with
      | Thrown e => (Thrown e, [ CallGetSystemStats; CallGetAllQueues 1000 ])
      | Returned listing =>
          (Returned
             {| snap_top := es_top systemStats;
                snap_system :=
                  system_fields (es_system systemStats)
                    (sum_contributions qm (queues listing))
                    (num_or (total listing) 0) (Z.of_nat (size clients)) |},
           [ CallGetSystemStats; CallGetAllQueues 1000 ]
           ++ flat_map (stats_calls qm) (queues listing))
      end
  end.
Proof.
  unfold run, getSystemStats, try_catch, bind, engineSystemStats, getAllQueues,
    await, put, get, throw.
  destruct (qm_getSystemStats qm) as [systemStats | e]; simpl; [| reflexivity].
  destruct (qm_getAllQueues qm 1000) as [listing | e]; simpl; [| reflexivity].
  rewrite stats_loop_run, add_counters_zero_l. reflexivity.
Qed.

Lemma getSystemStats_demo (clients : gset string) (c0 : Counters) :
  run (getSystemStats None clients) c0 =
  (Returned {| snap_top := ∅;
               snap_system := system_fields ∅ zero_counters 0 (Z.of_nat (size clients)) |},
   []).
Proof. reflexivity. Qed.

(** The standalone server's copy computes the same. *)
Lemma legacy_getSystemStats_same (qm : Engine) (clients : gset string) :
  Legacy.getSystemStats qm clients = getSystemStats (Some qm) clients.
Proof. reflexivity. Qed.

Lemma system_fields_lookup (base : gmap string jsval) (c : Counters)
    (totalQueues clients : Z) :
  let fields := system_fields base c totalQueues clients in
  fields !! "totalJobs" = Some (JNum (totalJobs c))
  /\ fields !! "activeJobs" = Some (JNum (activeJobs c))
  /\ fields !! "failedJobs" = Some (JNum (failedJobs c))
  /\ fields !! "totalQueues" = Some (JNum totalQueues)
  /\ fields !! "connectedClients" = Some (JNum clients).
Proof.
  unfold system_fields. simpl. repeat split; by simplify_map_eq.
Qed.

Lemma sum_contributions_fields (qm : Engine) (qs : list Queue) :
  totalJobs (sum_contributions qm qs) = Zsum (fun q => totalJobs (contribution qm q)) qs
  /\ activeJobs (sum_contributions qm qs) = Zsum (fun q => activeJobs (contribution qm q)) qs
  /\ failedJobs (sum_contributions qm qs) = Zsum (fun q => failedJobs (contribution qm q)) qs.
Proof.
  induction qs as [| q qs (IHt & IHa & IHf)]; simpl; [done |].
  rewrite IHt, IHa, IHf. done.
Qed.

Lemma stats_calls_listing (qm : Engine) (qs : list Queue) :
  filter (fun c => is_listing c = true) (flat_map (stats_calls qm) qs) = [].
Proof.
  induction qs as [| q qs IH]; [done |].
  cbn [flat_map]. rewrite filter_app, IH, app_nil_r. unfold stats_calls.
  destruct (qm_getQueueStats qm (queue_id q)); reflexivity.
Qed.

(** ** C1 *)

(** C1. The statistics loop counts a job as active exactly when its status
    is "pending" or "processing", as failed exactly when it is "failed" or
    "timed_out", and in neither counter for any other status; and when the
    only listed queue holds one job of each of the statuses pending,
    processing, completed, failed, timed_out, cancelled, the snapshot has
    activeJobs = 2 and failedJobs = 2. *)
Theorem status_classification :
  (forall (job : Job) (c : Counters) (log : list EngineCall),
      exists c', tally_job job c log = (Returned tt, c', log)
        /\ (job_status job = "pending" \/ job_status job = "processing" ->
            c' = incr_active c)
        /\ (job_status job = "failed" \/ job_status job = "timed_out" ->
            c' = incr_failed c)
        /\ (~ (job_status job = "pending" \/ job_status job = "processing"
               \/ job_status job = "failed" \/ job_status job = "timed_out") ->
            c' = c))
  /\ (forall (qm : Engine) (clients : gset string) (queue : Queue) (jobs : list Job)
        (count : option Z) (systemStats : EngineStats) (queueStats : QueueStats),
      qm_getSystemStats qm = Returned systemStats ->
      qm_getAllQueues qm 1000 = Returned {| queues := [queue]; total := count |} ->
      qm_getQueueStats qm (queue_id queue) = Returned queueStats ->
      qm_getQueueItems qm (queue_id queue) 0 (Int 1000) = Returned jobs ->
      job_status <$> jobs
        = ["pending"; "processing"; "completed"; "failed"; "timed_out"; "cancelled"] ->
      exists snapshot log,
        run (getSystemStats (Some qm) clients) zero_counters = (Returned snapshot, log)
        /\ snap_system snapshot !! "activeJobs" = Some (JNum 2)
        /\ snap_system snapshot !! "failedJobs" = Some (JNum 2)).
Proof.
  split.
  - intros job c log. eexists. split; [apply tally_job_run |].
    repeat split; intros H.
    + apply bucket_active in H. rewrite H. reflexivity.
    + apply bucket_failed in H. rewrite H. reflexivity.
    + apply bucket_neither in H. rewrite H. reflexivity.
  - intros qm clients queue jobs count systemStats queueStats Hs Hl Hq Hi Hj.
    rewrite getSystemStats_run, Hs, Hl. do 2 eexists. split; [reflexivity |].
    cbn [queues total sum_contributions foldr snap_system].
    rewrite add_counters_zero_r.
    destruct (system_fields_lookup (es_system systemStats) (contribution qm queue)
                (num_or count 0) (Z.of_nat (size clients))) as (_ & Ha & Hf & _).
    rewrite Ha, Hf. unfold contribution. rewrite Hq, Hi. simpl.
    do 7 (destruct jobs as [| ? jobs]; try discriminate Hj).
    injection Hj as H1 H2 H3 H4 H5 H6.
    rewrite !count_bucket_cons, count_bucket_nil, H1, H2, H3, H4, H5, H6.
    split; reflexivity.
Qed.

Lemma status_classification_witness :
  exists snapshot log,
    run (getSystemStats (Some (InMemory.engine InMemory.six_statuses)) ∅) zero_counters
      = (Returned snapshot, log)
    /\ snap_system snapshot !! "activeJobs" = Some (JNum 2)
    /\ snap_system snapshot !! "failedJobs" = Some (JNum 2).
Proof.
  destruct status_classification as [_ H].
  eapply (H (InMemory.engine InMemory.six_statuses) ∅
            (InMemory.queue "q1" "Emails")); reflexivity.
Defined.

(** ** C2 *)

Lemma contribution_fields (qm : Engine) (queue : Queue) :
  totalJobs (contribution qm queue) = declared_count qm queue
  /\ activeJobs (contribution qm queue) = count_bucket Active (classified_items qm queue)
  /\ failedJobs (contribution qm queue) = count_bucket Failed (classified_items qm queue).
Proof.
  unfold contribution, declared_count, classified_items.
  destruct (qm_getQueueStats qm (queue_id queue)); [| done].
  destruct (qm_getQueueItems qm (queue_id queue) 0 (Int 1000)); done.
Qed.

(** C2, as stated, fails: with the listing call succeeding, the stats
    computation still fails when the engine's own getSystemStats call
    fails; and a queue whose item fetch raises still adds its declared
    item count (6 here) to totalJobs. *)
Lemma stats_fail_without_listing_failure :
  (let qm := InMemory.with_failing_system_stats
               (InMemory.engine InMemory.six_statuses) in
   qm_getAllQueues qm 1000
     = Returned {| queues := [InMemory.queue "q1" "Emails"]; total := Some 1 |}
   /\ fst (run (getSystemStats (Some qm) ∅) zero_counters)
       = Thrown "Connection is closed")
  /\ (let qm := InMemory.with_failing_items "q1"
                  (InMemory.engine InMemory.six_statuses) in
      qm_getQueueItems qm "q1" 0 (Int 1000) = Thrown "Connection is closed"
      /\ stat "totalJobs" (fst (run (getSystemStats (Some qm) ∅) zero_counters))
          = Some (JNum 6)).
Proof. repeat split; vm_compute; reflexivity. Qed.

(** C2, amended. [getSystemStats] fails exactly when the engine's own
    getSystemStats call or the list-all-queues call fails, and it fails
    with that error.  The loop body never throws: a queue whose stats
    fetch raises leaves the three counters as they were, and a queue
    whose item fetch raises leaves activeJobs and failedJobs as they
    were (its declared item count has been added to totalJobs). *)
Theorem stats_failure_modes (qm : Engine) (clients : gset string) (c0 : Counters) :
  (forall e,
      fst (run (getSystemStats (Some qm) clients) c0) = Thrown e <->
      (qm_getSystemStats qm = Thrown e
       \/ ((exists systemStats, qm_getSystemStats qm = Returned systemStats)
           /\ qm_getAllQueues qm 1000 = Thrown e)))
  /\ (forall (qs : list Queue) (c : Counters) (log : list EngineCall),
        exists c' log', for_of qs (stats_of_queue qm) c log = (Returned tt, c', log'))
  /\ (forall (queue : Queue) (c : Counters) (log : list EngineCall),
        exists c' log',
          stats_of_queue qm queue c log = (Returned tt, c', log')
          /\ ((exists e, qm_getQueueStats qm (queue_id queue) = Thrown e) -> c' = c)
          /\ (forall queueStats e,
                qm_getQueueStats qm (queue_id queue) = Returned queueStats ->
                qm_getQueueItems qm (queue_id queue) 0 (Int 1000) = Thrown e ->
                activeJobs c' = activeJobs c
                /\ failedJobs c' = failedJobs c
                /\ totalJobs c' = totalJobs c + num_or (itemCount queueStats) 0)).
Proof.
  repeat split.
  - rewrite getSystemStats_run.
    destruct (qm_getSystemStats qm) as [systemStats | e1]; simpl.
    + destruct (qm_getAllQueues qm 1000) as [listing | e2]; simpl.
      * discriminate.
      * intros [= ->]. right. eauto.
    + intros [= ->]. by left.
  - rewrite getSystemStats_run. intros [H | [[systemStats Hs] Hl]].
    + rewrite H. reflexivity.
    + rewrite Hs, Hl. reflexivity.
  - intros qs c log. rewrite stats_loop_run. eauto.
  - intros queue c log. rewrite stats_of_queue_run. do 2 eexists.
    split; [reflexivity |]. unfold contribution. split.
    + intros [e He]. rewrite He. apply add_counters_zero_r.
    + intros queueStats e Hq Hi. rewrite Hq, Hi. simpl. lia.
Qed.

Lemma stats_failure_modes_witness :
  let qm := InMemory.with_failing_items "q1"
              (InMemory.engine InMemory.six_statuses) in
  exists c' log',
    stats_of_queue qm (InMemory.queue "q1" "Emails") zero_counters []
      = (Returned tt, c', log')
    /\ activeJobs c' = 0 /\ failedJobs c' = 0 /\ totalJobs c' = 6.
Proof.
  intros qm.
  destruct (stats_failure_modes qm ∅ zero_counters) as (_ & _ & H).
  destruct (H (InMemory.queue "q1" "Emails") zero_counters [])
    as (c' & log' & Hrun & _ & Hitems).
  exists c', log'. split; [exact Hrun |].
  apply (Hitems {| itemCount := Some 6 |} "Connection is closed"); reflexivity.
Defined.

(** ** C3 *)

(** C3, as stated, fails: totalJobs is not obtained from the fetched
    items.  One queue is listed, so at most 1000 items would be counted,
    yet totalJobs is the 1500 the queue declares. *)
Lemma totalJobs_exceeds_item_bound :
  let qm := InMemory.engine InMemory.large_queue in
  qm_getAllQueues qm 1000
    = Returned {| queues := [InMemory.queue "big" "Backlog"]; total := Some 1 |}
  /\ stat "totalJobs" (fst (run (getSystemStats (Some qm) ∅) zero_counters))
      = Some (JNum 1500).
Proof. split; vm_compute; reflexivity. Qed.

(** C3, amended. When the computation succeeds, activeJobs and failedJobs
    are the sums, over the queues the listing call returned, of the
    numbers of active and of failed items among the items that queue's
    item fetch returned (none for a queue one of whose fetches raised);
    totalJobs is the sum of the item counts the queues declare; and the
    listing was called once. *)
Theorem aggregate_counts (qm : Engine) (clients : gset string) (c0 : Counters)
    (systemStats : EngineStats) (listing : QueueListing) :
  qm_getSystemStats qm = Returned systemStats ->
  qm_getAllQueues qm 1000 = Returned listing ->
  let r := run (getSystemStats (Some qm) clients) c0 in
  stat "totalJobs" (fst r)
    = Some (JNum (Zsum (declared_count qm) (queues listing)))
  /\ stat "activeJobs" (fst r)
      = Some (JNum (Zsum (fun q => count_bucket Active (classified_items qm q))
                         (queues listing)))
  /\ stat "failedJobs" (fst r)
      = Some (JNum (Zsum (fun q => count_bucket Failed (classified_items qm q))
                         (queues listing)))
  /\ filter (fun c => is_listing c = true) (snd r) = [ CallGetAllQueues 1000 ].
Proof.
  intros Hs Hl r. subst r. rewrite getSystemStats_run, Hs, Hl.
  cbn [fst snd stat snap_system].
  destruct (system_fields_lookup (es_system systemStats)
              (sum_contributions qm (queues listing))
              (num_or (total listing) 0) (Z.of_nat (size clients)))
    as (Ht & Ha & Hf & _).
  destruct (sum_contributions_fields qm (queues listing)) as (St & Sa & Sf).
  rewrite Ht, Ha, Hf, St, Sa, Sf.
  assert (Hext : forall (f g : Queue -> Z) qs, (forall q, f q = g q) -> Zsum f qs = Zsum g qs).
  { intros f g qs Hfg. induction qs as [| q qs IH]; simpl; [done |]. by rewrite Hfg, IH. }
  repeat split.
  - do 2 f_equal. apply Hext. intros q. apply contribution_fields.
  - do 2 f_equal. apply Hext. intros q. apply contribution_fields.
  - do 2 f_equal. apply Hext. intros q. apply contribution_fields.
  - rewrite filter_app, stats_calls_listing. reflexivity.
Qed.

Lemma aggregate_counts_witness :
  let qm := InMemory.engine InMemory.six_statuses in
  let r := run (getSystemStats (Some qm) ∅) zero_counters in
  stat "totalJobs" (fst r) = Some (JNum 6)
  /\ stat "activeJobs" (fst r) = Some (JNum 2)
  /\ stat "failedJobs" (fst r) = Some (JNum 2)
  /\ filter (fun c => is_listing c = true) (snd r) = [ CallGetAllQueues 1000 ].
Proof.
  exact (aggregate_counts (InMemory.engine InMemory.six_statuses) ∅ zero_counters
           {| es_top := ∅; es_system := ∅ |}
           {| queues := [InMemory.queue "q1" "Emails"]; total := Some 1 |}
           eq_refl eq_refl).
Defined.

(** ** Sorting and slicing *)

Section SortFacts.
Context {A : Type} (key : A -> Z).

Lemma descending_trans : Transitive (descending key).
Proof. unfold descending. intros x y z Hxy Hyz. lia. Qed.

Lemma sort_insert_perm (x : A) (l : list A) : sort_insert (newest_first key) x l ≡ₚ x :: l.
Proof.
  induction l as [| y l IH]; simpl; [done |].
  destruct (newest_first key x y <=? 0); [done |].
  rewrite IH. apply Permutation_swap.
Qed.

Lemma array_sort_perm (l : list A) : array_sort (newest_first key) l ≡ₚ l.
Proof.
  induction l as [| x l IH]; simpl; [done |].
  rewrite sort_insert_perm. by rewrite IH.
Qed.

Lemma sort_insert_hd (x y : A) (l : list A) :
  descending key y x -> HdRel (descending key) y l ->
  HdRel (descending key) y (sort_insert (newest_first key) x l).
Proof.
  intros Hyx Hl. destruct l as [| z l]; simpl.
  - by constructor.
  - destruct (newest_first key x z <=? 0); constructor; [done |].
    by inversion Hl.
Qed.

Lemma sort_insert_sorted (x : A) (l : list A) :
  Sorted (descending key) l -> Sorted (descending key) (sort_insert (newest_first key) x l).
Proof.
  induction 1 as [| y l Hs IH Hhd]; simpl.
  - repeat constructor.
  - destruct (Z.leb_spec (newest_first key x y) 0) as [Hle | Hgt].
    + constructor; [by constructor |]. constructor.
      unfold descending, newest_first in *. lia.
    + constructor; [done |]. apply sort_insert_hd; [| done].
      unfold descending, newest_first in *. lia.
Qed.

Lemma array_sort_sorted (l : list A) : Sorted (descending key) (array_sort (newest_first key) l).
Proof.
  induction l as [| x l IH]; simpl; [constructor |].
  by apply sort_insert_sorted.
Qed.

(** The sort is stable: elements with equal keys keep their order. *)
Lemma sort_insert_filter (k : Z) (x : A) (l : list A) :
  Sorted (descending key) l ->
  filter (fun a => key a = k) (sort_insert (newest_first key) x l)
  = filter (fun a => key a = k) (x :: l).
Proof.
  induction 1 as [| y l Hs IH Hhd]; simpl; [done |].
  destruct (Z.leb_spec (newest_first key x y) 0) as [Hle | Hgt]; [done |].
  rewrite (filter_cons _ y), IH, !filter_cons.
  unfold newest_first in Hgt.
  destruct (decide (key x = k)), (decide (key y = k)); try done. lia.
Qed.

Lemma array_sort_stable (k : Z) (l : list A) :
  filter (fun a => key a = k) (array_sort (newest_first key) l) = filter (fun a => key a = k) l.
Proof.
  induction l as [| x l IH]; simpl; [done |].
  rewrite sort_insert_filter by apply array_sort_sorted.
  by rewrite !filter_cons, IH.
Qed.

Lemma Sorted_take (R : relation A) (n : nat) (l : list A) :
  Sorted R l -> Sorted R (take n l).
Proof.
  intros Hs. revert n. induction Hs as [| x l Hs IH Hhd]; intros [| n]; simpl;
    try constructor; [apply IH |].
  destruct Hhd; destruct n; simpl; by constructor.
Qed.

(** What [l.sort(compare).slice(0, L)] returns for a limit [L >= 0]. *)
Lemma sorted_slice (l : list A) (L : Z) :
  0 <= L ->
  let out := slice0 (array_sort (newest_first key) l) (Int L) in
  Sorted (descending key) out
  /\ Z.of_nat (length out) <= L
  /\ exists rest,
      out ++ rest ≡ₚ l
      /\ (forall x y, x ∈ out -> y ∈ rest -> key y <= key x)
      /\ (rest = [] \/ Z.of_nat (length out) = L).
Proof.
  intros HL out. subst out. unfold slice0.
  destruct (Z.ltb_spec L 0) as [Hneg | _]; [lia |].
  set (sorted := array_sort (newest_first key) l).
  set (n := Z.to_nat (Z.min L (Z.of_nat (length sorted)))).
  assert (Hsorted : Sorted (descending key) sorted) by apply array_sort_sorted.
  split; [by apply Sorted_take |]. split.
  { rewrite length_take. lia. }
  exists (drop n sorted). split; [| split].
  - rewrite take_drop. apply array_sort_perm.
  - intros x y Hx Hy.
    pose proof (@Sorted_StronglySorted A (descending key) descending_trans
                  sorted Hsorted) as Hstrong.
    rewrite <- (take_drop n sorted) in Hstrong.
    exact (StronglySorted_app_1_elem_of _ _ _ _ _ Hstrong Hx Hy).
  - destruct (decide (L <= Z.of_nat (length sorted))) as [Hle | Hgt].
    + right. rewrite length_take. lia.
    + left. apply drop_ge. lia.
Qed.
End SortFacts.

(** ** The collecting loops of GET /api/jobs and GET /api/activity/recent *)

Lemma push_all_run {X Y : Type} (f : X -> Y) (xs : list X) (acc : list Y)
    (log : list EngineCall) :
  for_of xs (fun x => modify (fun arr => arr ++ [f x])) acc log
  = (Returned tt, acc ++ (f <$> xs), log).
Proof.
  revert acc. induction xs as [| x xs IH]; intros acc; simpl.
  - unfold ret. by rewrite app_nil_r.
  - unfold bind, modify. rewrite IH, <- app_assoc. reflexivity.
Qed.

Lemma jobs_of_queue_run (qm : Engine) (limit : jsval) (queue : Queue)
    (acc : list AnnotatedJob) (log : list EngineCall) :
  jobs_of_queue qm limit queue acc log
  = (Returned tt, acc ++ collected_jobs qm (parseInt limit) queue,
     log ++ [ CallGetQueueItems (queue_id queue) 0 (num_sub (parseInt limit) 1) ]).
Proof.
  unfold jobs_of_queue, try_catch, bind, getQueueItems, await, collected_jobs.
  destruct (qm_getQueueItems qm (queue_id queue) 0 (num_sub (parseInt limit) 1)).
  - by rewrite push_all_run.
  - unfold ret. by rewrite app_nil_r.
Qed.

Lemma jobs_loop_run (qm : Engine) (limit : jsval) (qs : list Queue)
    (acc : list AnnotatedJob) (log : list EngineCall) :
  for_of qs (jobs_of_queue qm limit) acc log
  = (Returned tt, acc ++ flat_map (collected_jobs qm (parseInt limit)) qs,
     log ++ ((fun q => CallGetQueueItems (queue_id q) 0 (num_sub (parseInt limit) 1)) <$> qs)).
Proof.
  revert acc log. induction qs as [| q qs IH]; intros acc log; simpl.
  - unfold ret. by rewrite !app_nil_r.
  - unfold bind. rewrite jobs_of_queue_run, IH, <- !app_assoc. reflexivity.
Qed.

Lemma get_api_jobs_run (qm : Engine) (query_limit : jsval) (s0 : list AnnotatedJob) :
  run (get_api_jobs (Some qm) query_limit) s0 =
  let n := parseInt (with_default query_limit 100) in
  match qm_getAllQueues qm 1000 with
  | Thrown e => (Returned (status_json 500 (error_object e)), [ CallGetAllQueues 1000 ])
  | Returned listing =>
      (Returned (json (PJobs
         (slice0 (array_sort newest_job_first
                    (flat_map (collected_jobs qm n) (queues listing))) n))),
       CallGetAllQueues 1000
       :: ((fun q => CallGetQueueItems (queue_id q) 0 (num_sub n 1)) <$> queues listing))
  end.
Proof.
  unfold run, get_api_jobs, try_catch, bind, put, getAllQueues, await, modify, get.
  simpl. destruct (qm_getAllQueues qm 1000) as [listing | e]; [| reflexivity].
  rewrite jobs_loop_run. reflexivity.
Qed.

Lemma activity_of_queue_run (qm : Engine) (queue : Queue)
    (acc : list Activity) (log : list EngineCall) :
  activity_of_queue qm queue acc log
  = (Returned tt, acc ++ collected_activity qm queue,
     log ++ [ CallGetQueueItems (queue_id queue) 0 (Int 10) ]).
Proof.
  unfold activity_of_queue, try_catch, bind, getQueueItems, await, collected_activity.
  destruct (qm_getQueueItems qm (queue_id queue) 0 (Int 10)).
  - by rewrite push_all_run.
  - unfold ret. by rewrite app_nil_r.
Qed.

Lemma activity_loop_run (qm : Engine) (qs : list Queue)
    (acc : list Activity) (log : list EngineCall) :
  for_of qs (activity_of_queue qm) acc log
  = (Returned tt, acc ++ flat_map (collected_activity qm) qs,
     log ++ ((fun q => CallGetQueueItems (queue_id q) 0 (Int 10)) <$> qs)).
Proof.
  revert acc log. induction qs as [| q qs IH]; intros acc log; simpl.
  - unfold ret. by rewrite !app_nil_r.
  - unfold bind. rewrite activity_of_queue_run, IH, <- !app_assoc. reflexivity.
Qed.

Lemma get_api_activity_recent_run (qm : Engine) (query_limit : jsval)
    (s0 : list Activity) :
  run (get_api_activity_recent (Some qm) query_limit) s0 =
  match qm_getAllQueues qm 1000 with
  | Thrown e => (Returned (status_json 500 (error_object e)), [ CallGetAllQueues 1000 ])
  | Returned listing =>
      (Returned (json (PActivity
         (slice0 (array_sort newest_activity_first
                    (flat_map (collected_activity qm) (queues listing)))
                 (parseInt (with_default query_limit 20))))),
       CallGetAllQueues 1000
       :: ((fun q => CallGetQueueItems (queue_id q) 0 (Int 10)) <$> queues listing))
  end.
Proof.
  unfold run, get_api_activity_recent, try_catch, bind, put, getAllQueues, await,
    modify, get.
  simpl. destruct (qm_getAllQueues qm 1000) as [listing | e]; [| reflexivity].
  rewrite activity_loop_run. reflexivity.
Qed.

Lemma elem_of_flat_map {X Y : Type} (f : X -> list Y) (xs : list X) (y : Y) :
  y ∈ flat_map f xs <-> exists x, x ∈ xs /\ y ∈ f x.
Proof.
  rewrite list_elem_of_In, in_flat_map.
  split; intros (x & Hx & Hy); exists x; split; by apply list_elem_of_In.
Qed.

(** ** C4 *)






(** ** C9 *)

(** What GET /api/activity/recent answers, for a limit that parses to
    [L >= 0] (20 when absent): the entries projected from the items each
    listed queue's fetch of the range (0, 10) returned, a failing fetch
    giving none and no error; sorted by timestamp descending; at most [L]
    of them, the newest ones. *)
Lemma recent_activity_general (qm : Engine) (query_limit : jsval) (L : Z)
    (listing : QueueListing) (s0 : list Activity) :
  parseInt (with_default query_limit 20) = Int L ->
  0 <= L ->
  qm_getAllQueues qm 1000 = Returned listing ->
  exists out rest,
    fst (run (get_api_activity_recent (Some qm) query_limit) s0)
      = Returned (json (PActivity out))
    /\ (forall x, x ∈ out ->
          exists queue jobs job,
            queue ∈ queues listing
            /\ qm_getQueueItems qm (queue_id queue) 0 (Int 10) = Returned jobs
            /\ job ∈ jobs
            /\ x = {| act_type := "Job";
                      act_description :=
                        "Job " +:+ job_id job +:+ " in " +:+ queue_name queue;
                      act_status := job_status job;
                      act_timestamp := job_addedAt job;
                      act_queueId := queue_id queue |})
    /\ Sorted (descending act_timestamp) out
    /\ Z.of_nat (length out) <= L
    /\ out ++ rest ≡ₚ flat_map (collected_activity qm) (queues listing)
    /\ (forall x y, x ∈ out -> y ∈ rest -> act_timestamp y <= act_timestamp x)
    /\ (rest = [] \/ Z.of_nat (length out) = L).
Proof.
  intros Hparse HL Hl.
  rewrite get_api_activity_recent_run, Hl, Hparse.
  destruct (sorted_slice act_timestamp
              (flat_map (collected_activity qm) (queues listing)) L HL)
    as (Hsorted & Hlen & rest & Hperm & Hrest & Hfull).
  eexists. exists rest. split; [reflexivity |].
  repeat split; try assumption.
  intros x Hx.
  assert (Hin : x ∈ flat_map (collected_activity qm) (queues listing)).
  { rewrite <- Hperm. apply elem_of_app. by left. }
  apply elem_of_flat_map in Hin as (queue & Hq & Hxq).
  unfold collected_activity in Hxq.
  destruct (qm_getQueueItems qm (queue_id queue) 0 (Int 10)) as [jobs | e] eqn:E.
  - apply list_elem_of_fmap in Hxq as (job & -> & Hjob).
    exists queue, jobs, job. repeat split; assumption.
  - by apply elem_of_nil in Hxq.
Qed.

(** With the item fetch of one of five queues failing, the answer is
    still a 200 with the entries of the other four, newest first. *)
Lemma recent_activity_one_queue_failing :
  let qm := InMemory.with_failing_items "q2" (InMemory.engine InMemory.five_queues) in
  exists out,
    fst (run (get_api_activity_recent (Some qm) JUndefined) [])
      = Returned (json (PActivity out))
    /\ act_queueId <$> out = ["q4"; "q1"; "q5"; "q3"]
    /\ act_timestamp <$> out = [4; 3; 2; 1].
Proof. intros qm. eexists. split; [vm_compute; reflexivity |]. split; reflexivity. Qed.

(** C9. The code at the failing input: a queue of eleven jobs, no limit
    in the query (so 20).  The answer carries eleven entries of that one
    queue, where the claim allows ten. *)
Theorem recent_activity_eleven_entries :
  let qm := InMemory.engine InMemory.eleven_jobs in
  exists out,
    fst (run (get_api_activity_recent (Some qm) JUndefined) [])
      = Returned (json (PActivity out))
    /\ length out = 11%nat
    /\ Forall (fun entry => act_queueId entry = "feed") out.
Proof.
  intros qm. eexists. split; [vm_compute; reflexivity |].
  split; [reflexivity |]. repeat constructor.
Qed.

(** ** POST /api/queues: validation and the default capacity *)

Lemma post_api_queues_invalid (qm : option Engine) (body : gmap string jsval) :
  validationResult body <> [] ->
  run (post_api_queues qm body) tt
  = (Returned (status_json 400 (PErrors (validationResult body))), []).
Proof.
  intros Hne. unfold run, post_api_queues, try_catch.
  destruct (validationResult body); [done | reflexivity].
Qed.

Lemma post_api_queues_valid (qm : Engine) (body : gmap string jsval) :
  validationResult body = [] ->
  run (post_api_queues (Some qm) body) tt
  = let call_args := (body_field body "name", body_field body "queueId",
                      body_field body "description",
                      js_or (body_field body "maxSize") (JNum 10000)) in
    let '(name, queueId, description, maxSize) := call_args in
    (match qm_createQueue qm name queueId description maxSize with
     | Returned queue => Returned (json (PObject queue))
     | Thrown e => Returned (status_json 400 (error_object e))
     end,
     [ CallCreateQueue name queueId description maxSize ]).
Proof.
  intros Hv. unfold run, post_api_queues, try_catch, bind, createQueue, await.
  rewrite Hv. simpl.
  destruct (qm_createQueue qm _ _ _ _); reflexivity.
Qed.

Lemma notEmpty_rejects (field msg : string) (body : gmap string jsval) :
  isEmpty (body_field body field) = true ->
  notEmpty field msg body
  = [ {| ve_param := field; ve_msg := msg; ve_value := body_field body field |} ].
Proof. intros H. unfold notEmpty. rewrite H. reflexivity. Qed.

(** C5. A POST /api/queues whose body has an empty name (the empty
    string; a missing or null name is treated alike) is answered 400 with
    the validation errors, one of which names the field "name", and no
    engine method is called (so no createQueue); the same for an empty
    queueId.  This holds with the engine present or absent. *)
Theorem create_queue_rejects_empty_fields (qm : option Engine) (body : gmap string jsval) :
  isEmpty (JStr "") = true
  /\ (isEmpty (body_field body "name") = true ->
      exists errors,
        run (post_api_queues qm body) tt = (Returned (status_json 400 (PErrors errors)), [])
        /\ {| ve_param := "name"; ve_msg := "Queue name is required";
              ve_value := body_field body "name" |} ∈ errors)
  /\ (isEmpty (body_field body "queueId") = true ->
      exists errors,
        run (post_api_queues qm body) tt = (Returned (status_json 400 (PErrors errors)), [])
        /\ {| ve_param := "queueId"; ve_msg := "Queue ID is required";
              ve_value := body_field body "queueId" |} ∈ errors).
Proof.
  split; [reflexivity |].
  split; intros H; exists (validationResult body).
  - assert (Hin : {| ve_param := "name"; ve_msg := "Queue name is required";
                     ve_value := body_field body "name" |} ∈ validationResult body).
    { unfold validationResult. rewrite (notEmpty_rejects "name" _ _ H).
      apply elem_of_app. left. apply list_elem_of_here. }
    split; [| exact Hin].
    apply post_api_queues_invalid. intros E. rewrite E in Hin. by apply elem_of_nil in Hin.
  - assert (Hin : {| ve_param := "queueId"; ve_msg := "Queue ID is required";
                     ve_value := body_field body "queueId" |} ∈ validationResult body).
    { unfold validationResult. rewrite (notEmpty_rejects "queueId" _ _ H).
      apply elem_of_app. right. apply list_elem_of_here. }
    split; [| exact Hin].
    apply post_api_queues_invalid. intros E. rewrite E in Hin. by apply elem_of_nil in Hin.
Qed.

Lemma create_queue_rejects_empty_fields_witness :
  let qm := Some (InMemory.engine InMemory.three_queues) in
  let body : gmap string jsval := <["queueId" := JStr "mail"]> {[ "name" := JStr "" ]} in
  exists errors,
    run (post_api_queues qm body) tt = (Returned (status_json 400 (PErrors errors)), [])
    /\ {| ve_param := "name"; ve_msg := "Queue name is required";
          ve_value := JStr "" |} ∈ errors.
Proof.
  intros qm body.
  destruct (create_queue_rejects_empty_fields qm body) as (_ & H & _).
  apply H. reflexivity.
Defined.

(** C10. For a body that passes validation, with the engine present,
    exactly one engine call is made, createQueue, with the name, the
    queueId and the description of the body; its maxSize is 10000 when
    the body's maxSize is falsy (absent, null, 0), and the body's maxSize
    itself when that is truthy (any number other than 0). *)
Theorem create_queue_default_max_size (qm : Engine) (body : gmap string jsval) :
  validationResult body = [] ->
  let log := snd (run (post_api_queues (Some qm) body) tt) in
  let maxSize := body_field body "maxSize" in
  let created_with (m : jsval) :=
    log = [ CallCreateQueue (body_field body "name") (body_field body "queueId")
              (body_field body "description") m ] in
  (truthy maxSize = false -> created_with (JNum 10000))
  /\ (maxSize = JUndefined \/ maxSize = JNull \/ maxSize = JNum 0 ->
      created_with (JNum 10000))
  /\ (truthy maxSize = true -> created_with maxSize)
  /\ (forall n, maxSize = JNum n -> n <> 0 -> created_with (JNum n)).
Proof.
  intros Hv log maxSize created_with. subst log created_with.
  rewrite (post_api_queues_valid qm body Hv). cbn [snd]. fold maxSize.
  unfold js_or. repeat split.
  - intros ->. reflexivity.
  - intros [-> | [-> | ->]]; reflexivity.
  - intros ->. reflexivity.
  - intros n -> Hn. simpl. destruct (Z.eqb_spec n 0); [done | reflexivity].
Qed.

Lemma create_queue_default_max_size_witness :
  let qm := InMemory.engine InMemory.three_queues in
  let body : gmap string jsval :=
    <["maxSize" := JNum 0]> (<["queueId" := JStr "mail"]> {[ "name" := JStr "Mail" ]}) in
  snd (run (post_api_queues (Some qm) body) tt)
  = [ CallCreateQueue (JStr "Mail") (JStr "mail") JUndefined (JNum 10000) ].
Proof.
  intros qm body.
  destruct (create_queue_default_max_size qm body eq_refl) as (_ & H & _).
  apply H. right. right. reflexivity.
Defined.

(** The standalone server's handler applies the same default, to every
    body. *)
Lemma legacy_create_queue_max_size (qm : Engine) (body : gmap string jsval) :
  snd (run (Legacy.post_api_queues qm body) tt)
  = [ CallCreateQueue (body_field body "name") (body_field body "queueId")
        (body_field body "description")
        (if truthy (body_field body "maxSize") then body_field body "maxSize"
         else JNum 10000) ].
Proof.
  unfold run, Legacy.post_api_queues, try_catch, bind, createQueue, await, js_or.
  destruct (qm_createQueue qm _ _ _ _); reflexivity.
Qed.

(** ** C6: the engine is absent *)

(** C6, as stated, fails: with the engine absent, a POST /api/queues
    whose body has no name is answered 400, not 503. *)
Lemma demo_mode_invalid_body_is_400 :
  let body : gmap string jsval := {[ "queueId" := JStr "mail" ]} in
  run (post_api_queues None body) tt
  = (Returned (status_json 400
       (PErrors [ {| ve_param := "name"; ve_msg := "Queue name is required";
                     ve_value := JUndefined |} ])), [])
  /\ status (status_json 400 (PErrors [])) <> 503.
Proof. split; [vm_compute; reflexivity | discriminate]. Qed.

(** C6, amended. When the construction of the engine client fails, the
    client stays absent, and with it absent no handler throws or calls
    the engine: GET /api/health answers {status: "demo"}; GET /api/queues
    answers {queues: [], total: 0}; GET /api/jobs and GET
    /api/activity/recent answer []; GET /api/system/stats answers zero
    totals and the number of connected clients; DELETE /api/queues/:id
    answers 503; POST /api/queues answers 503 when its body passes
    validation, and 400 with the validation errors when it does not. *)
Theorem demo_mode_responses (clients : gset string) (query_limit : jsval)
    (queueId : string) (body : gmap string jsval) :
  (forall websocket message,
      initializeQueueManager websocket (Thrown message) = (None, []))
  /\ run (get_api_health None) tt
    = (Returned (json (PObject {[ "status" := JStr "demo" ]})), [])
  /\ run (get_api_queues None) tt
     = (Returned (json (PQueues {| queues := []; total := Some 0 |})), [])
  /\ (forall s0, run (get_api_jobs None query_limit) s0 = (Returned (json (PJobs [])), []))
  /\ (forall s0, run (get_api_activity_recent None query_limit) s0
                 = (Returned (json (PActivity [])), []))
  /\ (exists snapshot,
        run (get_api_system_stats None clients) tt = (Returned (json (PStats snapshot)), [])
        /\ snap_top snapshot = ∅
        /\ snap_system snapshot !! "totalQueues" = Some (JNum 0)
        /\ snap_system snapshot !! "totalJobs" = Some (JNum 0)
        /\ snap_system snapshot !! "activeJobs" = Some (JNum 0)
        /\ snap_system snapshot !! "failedJobs" = Some (JNum 0)
        /\ snap_system snapshot !! "connectedClients"
           = Some (JNum (Z.of_nat (size clients)))
        /\ dom (snap_system snapshot)
           = {[ "totalQueues"; "totalJobs"; "activeJobs"; "failedJobs";
                "connectedClients" ]})
  /\ run (delete_api_queue None queueId) tt
     = (Returned (status_json 503 (error_object "QueueManager not available")), [])
  /\ (validationResult body = [] ->
      run (post_api_queues None body) tt
      = (Returned (status_json 503 (error_object "QueueManager not available")), []))
  /\ (validationResult body <> [] ->
      run (post_api_queues None body) tt
      = (Returned (status_json 400 (PErrors (validationResult body))), [])).
Proof.
  split; [intros websocket message; reflexivity |].
  split; [reflexivity |]. split; [reflexivity |].
  split; [intros s0; reflexivity |]. split; [intros s0; reflexivity |].
  split.
  { eexists. split; [reflexivity |]. cbn [snap_top snap_system].
    destruct (system_fields_lookup ∅ zero_counters 0 (Z.of_nat (size clients)))
      as (Ht & Ha & Hf & Hq & Hc).
    repeat split; assumption. }
  split; [reflexivity |]. split.
  - intros Hv. unfold run, post_api_queues, try_catch. rewrite Hv. reflexivity.
  - apply post_api_queues_invalid.
Qed.

Lemma demo_mode_responses_witness :
  let body : gmap string jsval := <["queueId" := JStr "mail"]> {[ "name" := JStr "Mail" ]} in
  run (post_api_queues None body) tt
  = (Returned (status_json 503 (error_object "QueueManager not available")), []).
Proof.
  intros body.
  destruct (demo_mode_responses ∅ JUndefined "mail" body)
    as (_ & _ & _ & _ & _ & _ & _ & H & _).
  apply H. reflexivity.
Defined.

(** ** C7: the connected-client count *)

(** With the connection handler installed, the dashboard's own set and
    socket.io's set of open sockets stay equal. *)
Lemma sockets_are_connected_clients (qm : option Engine) (history : list ClientEvent)
    (st : Server) :
  sockets st = connectedClients st ->
  sockets (on_client_events true qm history st)
  = connectedClients (on_client_events true qm history st).
Proof.
  revert st. induction history as [| ev history IH]; intros st Hst; simpl; [done |].
  apply IH. destruct ev; simpl; try done.
  - by rewrite Hst.
  - by destruct (run (getSystemStats qm (connectedClients st)) zero_counters) as [[] ?].
  - by rewrite Hst.
Qed.

Lemma client_event_count (qm : option Engine) (ev : ClientEvent) (st : Server) :
  sockets st = connectedClients st ->
  possible ev st ->
  client_count (fst (on_client_event true qm ev st)) = client_count st + count_change ev.
Proof.
  intros Hst Hev. unfold client_count. destruct ev; simpl in *.
  - rewrite Hst in Hev.
    rewrite size_union by (by apply disjoint_singleton_l).
    rewrite size_singleton. lia.
  - destruct (run (getSystemStats qm (connectedClients st)) zero_counters) as [[] ?];
      simpl; lia.
  - lia.
  - lia.
  - rewrite Hst in Hev.
    assert (Hsub : ({[ id ]} : gset string) ⊆ connectedClients st)
      by (by apply singleton_subseteq_l).
    rewrite size_difference by exact Hsub.
    apply subseteq_size in Hsub. rewrite size_singleton in *. lia.
Qed.

Lemma client_trace_count (qm : option Engine) (trace : list ClientEvent) (st : Server) :
  sockets st = connectedClients st ->
  possible_trace true qm trace st ->
  client_count (on_client_events true qm trace st)
  = client_count st + Zsum count_change trace.
Proof.
  revert st. induction trace as [| ev trace IH]; intros st Hst Htrace; simpl.
  - lia.
  - destruct Htrace as [Hev Htrace].
    rewrite IH; [| exact (sockets_are_connected_clients qm [ev] st Hst) | exact Htrace].
    rewrite client_event_count by assumption. lia.
Qed.

(** C7. In any state the server reaches, a connect raises the number of
    connected clients by one, a disconnect lowers it by one, and a
    getStats, subscribeQueue or unsubscribeQueue leaves it unchanged; so
    over a sequence of events the number changes by the connects minus
    the disconnects, and connecting, subscribing to a queue and
    disconnecting leaves it where it was.  (The connection handler is
    installed, and events are those socket.io can deliver: a new
    connection has an id no open socket has, other events come from an
    open socket.) *)
Theorem connected_client_count (qm : option Engine) (history : list ClientEvent) :
  let st := on_client_events true qm history initial_server in
  (forall ev, possible ev st ->
     client_count (fst (on_client_event true qm ev st))
     = client_count st + count_change ev)
  /\ (forall trace, possible_trace true qm trace st ->
        client_count (on_client_events true qm trace st)
        = client_count st + Zsum count_change trace)
  /\ (forall id queueId, id ∉ sockets st ->
        client_count (on_client_events true qm
                        [ Connect id; SubscribeQueue id queueId; Disconnect id ] st)
        = client_count st).
Proof.
  intros st.
  assert (Hst : sockets st = connectedClients st).
  { apply sockets_are_connected_clients. reflexivity. }
  split; [| split].
  - intros ev Hev. by apply client_event_count.
  - intros trace Htrace. by apply client_trace_count.
  - intros id queueId Hid.
    rewrite client_trace_count; [simpl; lia | exact Hst |].
    simpl. repeat split; [exact Hid | |];
      apply elem_of_union; left; by apply elem_of_singleton.
Qed.

Lemma connected_client_count_witness :
  client_count (on_client_events true None
                  [ Connect "s1"; SubscribeQueue "s1" "Q1"; Disconnect "s1" ]
                  (on_client_events true None [ Connect "s0" ] initial_server))
  = client_count (on_client_events true None [ Connect "s0" ] initial_server).
Proof.
  destruct (connected_client_count None [ Connect "s0" ]) as (_ & _ & H).
  apply H. simpl. intros Hin.
  apply elem_of_union in Hin as [Hin | Hin].
  - apply elem_of_singleton in Hin. discriminate Hin.
  - by apply elem_of_empty in Hin.
Defined.

(** ** C8: the event relay *)

Lemma relayed_event_emits (e : Engine) (st : Server) (name : string) (data : jsval) :
  eventEmitter e = true ->
  name ∈ relayed_events ->
  engine_emits (snd (initializeQueueManager true (Returned e))) name data st
  = io_emit name data st.
Proof.
  intros He Hname. unfold initializeQueueManager, setupRealtimeEvents.
  rewrite He. simpl negb. cbv iota. cbn [snd]. unfold relayed_events in Hname.
  repeat (apply elem_of_cons in Hname as [-> | Hname]);
    try (by apply elem_of_nil in Hname);
    unfold engine_emits; simpl; by rewrite app_nil_r.
Qed.

(** C8. Once [initializeQueueManager] has set up the relay (real-time
    support enabled, engine client constructed, with its event emitter),
    an engine event with one of the eight names is sent, under the same
    name and with the same data, once to every open socket and to
    nothing else; which sockets joined which rooms makes no difference;
    and the open sockets are the connected clients the dashboard
    counts. *)
Theorem relay_broadcasts_to_all (e : Engine) (st : Server) (name : string) (data : jsval) :
  eventEmitter e = true ->
  name ∈ relayed_events ->
  let listeners := snd (initializeQueueManager true (Returned e)) in
  let sent := engine_emits listeners name data st in
  (forall id, id ∈ sockets st <-> (id, MEvent name data) ∈ sent)
  /\ (forall delivery, delivery ∈ sent ->
        snd delivery = MEvent name data /\ fst delivery ∈ sockets st)
  /\ NoDup sent
  /\ (forall rooms',
        engine_emits listeners name data
          {| connectedClients := connectedClients st; sockets := sockets st;
             rooms := rooms' |}
        = sent)
  /\ (forall history,
        st = on_client_events true (Some e) history initial_server ->
        forall id, id ∈ connectedClients st <-> (id, MEvent name data) ∈ sent).
Proof.
  intros He Hname listeners sent. subst listeners sent.
  rewrite !(relayed_event_emits e _ name data He Hname).
  assert (Hall : forall id, id ∈ sockets st <-> (id, MEvent name data) ∈ io_emit name data st).
  { intros id. unfold io_emit. rewrite list_elem_of_fmap. split.
    - intros Hid. exists id. split; [done |]. by apply elem_of_elements.
    - intros (id' & [= ->] & Hin). by apply elem_of_elements in Hin. }
  split; [exact Hall |]. split; [| split; [| split]].
  - intros delivery Hin. unfold io_emit in Hin.
    apply list_elem_of_fmap in Hin as (id & -> & Hin).
    split; [reflexivity |]. by apply elem_of_elements in Hin.
  - unfold io_emit. apply NoDup_fmap_2; [| apply NoDup_elements].
    intros x y [= ->]. reflexivity.
  - intros rooms'. by rewrite (relayed_event_emits e _ name data He Hname).
  - intros history Hst id. rewrite <- Hall. rewrite Hst.
    by rewrite (sockets_are_connected_clients (Some e) history initial_server).
Qed.

Lemma relay_broadcasts_to_all_witness :
  let e := InMemory.engine InMemory.three_queues in
  let st := on_client_events true (Some e)
              [ Connect "s1"; Connect "s2"; SubscribeQueue "s1" "a" ] initial_server in
  let sent := engine_emits (snd (initializeQueueManager true (Returned e)))
                "jobAdded" (JStr "j9") st in
  ("s1", MEvent "jobAdded" (JStr "j9")) ∈ sent
  /\ ("s2", MEvent "jobAdded" (JStr "j9")) ∈ sent.
Proof.
  intros e st sent.
  destruct (relay_broadcasts_to_all e st "jobAdded" (JStr "j9")) as (H & _).
  - reflexivity.
  - unfold relayed_events. apply list_elem_of_In. simpl. tauto.
  - split; apply H; subst st; simpl.
    + apply elem_of_union. right. apply elem_of_union. left. by apply elem_of_singleton.
    + apply elem_of_union. left. by apply elem_of_singleton.
Defined.

(** * Further properties of the server *)

(** ** The engine calls of [getSystemStats] *)

Lemma stats_calls_length (qm : Engine) (qs : list Queue) :
  (length qs <= length (flat_map (stats_calls qm) qs) <= 2 * length qs)%nat.
Proof.
  induction qs as [| q qs IH]; cbn [flat_map]; [simpl; lia |].
  rewrite length_app. unfold stats_calls at 1 3.
  destruct (qm_getQueueStats qm (queue_id q)); simpl; lia.
Qed.

Lemma stats_calls_length_all (qm : Engine) (qs : list Queue) :
  (forall q, q ∈ qs -> exists s, qm_getQueueStats qm (queue_id q) = Returned s) ->
  length (flat_map (stats_calls qm) qs) = (2 * length qs)%nat.
Proof.
  induction qs as [| q qs IH]; intros Hall; cbn [flat_map]; [reflexivity |].
  rewrite length_app, IH.
  - destruct (Hall q) as [st Hst]; [apply list_elem_of_here |].
    unfold stats_calls. rewrite Hst. simpl. lia.
  - intros q' Hq'. apply Hall. by apply list_elem_of_further.
Qed.

Lemma stats_calls_elem (qm : Engine) (qs : list Queue) (c : EngineCall) :
  c ∈ flat_map (stats_calls qm) qs <->
  exists q, q ∈ qs
    /\ (c = CallGetQueueStats (queue_id q)
        \/ (c = CallGetQueueItems (queue_id q) 0 (Int 1000)
            /\ exists s, qm_getQueueStats qm (queue_id q) = Returned s)).
Proof.
  rewrite elem_of_flat_map. split.
  - intros (q & Hq & Hc). exists q. split; [exact Hq |]. unfold stats_calls in Hc.
    apply elem_of_cons in Hc as [-> | Hc]; [by left |].
    destruct (qm_getQueueStats qm (queue_id q)) as [st |] eqn:E.
    + apply list_elem_of_singleton in Hc as ->. right. eauto.
    + by apply elem_of_nil in Hc.
  - intros (q & Hq & [-> | [-> [st Hst]]]); exists q; (split; [exact Hq |]);
      unfold stats_calls.
    + apply list_elem_of_here.
    + rewrite Hst. apply list_elem_of_further, list_elem_of_here.
Qed.

(** X1. A successful [getSystemStats] calls the engine's getSystemStats
    once and the listing once, then for each listed queue its stats, and
    its items (always the range 0 to 1000) only if the stats fetch
    succeeded: between N + 2 and 2N + 2 calls for N queues, 2N + 2 when
    every stats fetch succeeds. *)
Theorem stats_engine_calls (qm : Engine) (clients : gset string) (c0 : Counters)
    (systemStats : EngineStats) (listing : QueueListing) :
  qm_getSystemStats qm = Returned systemStats ->
  qm_getAllQueues qm 1000 = Returned listing ->
  let log := snd (run (getSystemStats (Some qm) clients) c0) in
  let n := length (queues listing) in
  (exists rest, log = CallGetSystemStats :: CallGetAllQueues 1000 :: rest
     /\ (forall c, c ∈ rest <->
           exists q, q ∈ queues listing
             /\ (c = CallGetQueueStats (queue_id q)
                 \/ (c = CallGetQueueItems (queue_id q) 0 (Int 1000)
                     /\ exists s, qm_getQueueStats qm (queue_id q) = Returned s))))
  /\ (n + 2 <= length log <= 2 * n + 2)%nat
  /\ ((forall q, q ∈ queues listing ->
         exists s, qm_getQueueStats qm (queue_id q) = Returned s) ->
      length log = (2 * n + 2)%nat).
Proof.
  intros Hs Hl log n. subst log n. rewrite getSystemStats_run, Hs, Hl. cbn [snd].
  split; [| split].
  - eexists. split; [reflexivity |]. intros c. apply stats_calls_elem.
  - pose proof (stats_calls_length qm (queues listing)). simpl. lia.
  - intros Hall. simpl. rewrite (stats_calls_length_all qm _ Hall). lia.
Qed.

Lemma stats_engine_calls_witness :
  let qm := InMemory.engine InMemory.five_queues in
  length (snd (run (getSystemStats (Some qm) ∅) zero_counters)) = 12%nat.
Proof.
  intros qm.
  destruct (stats_engine_calls qm ∅ zero_counters
              {| es_top := ∅; es_system := ∅ |}
              {| queues := fmap (M := list) InMemory.sq_queue InMemory.five_queues;
                 total := Some 5 |}
              eq_refl eq_refl) as (_ & _ & H).
  apply H. intros q Hq. simpl in Hq.
  repeat (apply elem_of_cons in Hq as [-> | Hq]; [eexists; reflexivity |]).
  by apply elem_of_nil in Hq.
Defined.

(** ** The snapshot *)




Lemma count_buckets_le (jobs : list Job) :
  count_bucket Active jobs + count_bucket Failed jobs <= Z.of_nat (length jobs).
Proof.
  induction jobs as [| job jobs IH]; [rewrite !count_bucket_nil; simpl; lia |].
  rewrite !count_bucket_cons. simpl length.
  destruct (bucket (job_status job)); repeat case_decide; try discriminate; lia.
Qed.

Lemma Zsum_ext {A} (f g : A -> Z) (l : list A) :
  (forall x, f x = g x) -> Zsum f l = Zsum g l.
Proof.
  intros Hfg. induction l as [| x l IH]; simpl; [reflexivity |]. by rewrite Hfg, IH.
Qed.

Lemma Zsum_perm {A} (f : A -> Z) (l l' : list A) :
  l ≡ₚ l' -> Zsum f l = Zsum f l'.
Proof. induction 1; simpl; lia. Qed.

Lemma sum_contributions_bounds (qm : Engine) (qs : list Queue) :
  0 <= activeJobs (sum_contributions qm qs)
  /\ 0 <= failedJobs (sum_contributions qm qs)
  /\ activeJobs (sum_contributions qm qs) + failedJobs (sum_contributions qm qs)
     <= Zsum (fun q => Z.of_nat (length (classified_items qm q))) qs.
Proof.
  induction qs as [| q qs IH]; simpl; [lia |].
  destruct IH as (IHa & IHf & IH).
  destruct (contribution_fields qm q) as (_ & -> & ->).
  pose proof (count_bucket_nonneg Active (classified_items qm q)).
  pose proof (count_bucket_nonneg Failed (classified_items qm q)).
  pose proof (count_buckets_le (classified_items qm q)). lia.
Qed.

(** X3. In a snapshot, activeJobs and failedJobs are never negative, and
    together they never exceed the number of items the item fetches
    returned. *)
Theorem stats_bounds (qm : Engine) (clients : gset string) (c0 : Counters)
    (systemStats : EngineStats) (listing : QueueListing) :
  qm_getSystemStats qm = Returned systemStats ->
  qm_getAllQueues qm 1000 = Returned listing ->
  let r := fst (run (getSystemStats (Some qm) clients) c0) in
  exists a f,
    stat "activeJobs" r = Some (JNum a)
    /\ stat "failedJobs" r = Some (JNum f)
    /\ 0 <= a /\ 0 <= f
    /\ a + f <= Zsum (fun q => Z.of_nat (length (classified_items qm q))) (queues listing).
Proof.
  intros Hs Hl r. subst r. rewrite getSystemStats_run, Hs, Hl.
  cbn [fst stat snap_system].
  destruct (system_fields_lookup (es_system systemStats)
              (sum_contributions qm (queues listing))
              (num_or (total listing) 0) (Z.of_nat (size clients)))
    as (_ & Ha & Hf & _).
  do 2 eexists. split; [exact Ha |]. split; [exact Hf |].
  apply sum_contributions_bounds.
Qed.

Lemma stats_bounds_witness :
  let r := fst (run (getSystemStats (Some (InMemory.engine InMemory.six_statuses)) ∅)
                  zero_counters) in
  exists a f,
    stat "activeJobs" r = Some (JNum a) /\ stat "failedJobs" r = Some (JNum f)
    /\ 0 <= a /\ 0 <= f /\ a + f <= 6.
Proof.
  exact (stats_bounds (InMemory.engine InMemory.six_statuses) ∅ zero_counters
           {| es_top := ∅; es_system := ∅ |}
           {| queues := [InMemory.queue "q1" "Emails"]; total := Some 1 |}
           eq_refl eq_refl).
Defined.

Lemma sum_contributions_perm (qm : Engine) (qs qs' : list Queue) :
  qs ≡ₚ qs' -> sum_contributions qm qs = sum_contributions qm qs'.
Proof.
  intros Hp.
  destruct (sum_contributions_fields qm qs) as (Ht & Ha & Hf).
  destruct (sum_contributions_fields qm qs') as (Ht' & Ha' & Hf').
  apply counters_eq; [rewrite Ht, Ht' | rewrite Ha, Ha' | rewrite Hf, Hf'];
    by apply Zsum_perm.
Qed.

Lemma contribution_ext (qm qm' : Engine) (q : Queue) :
  (forall id, qm_getQueueStats qm id = qm_getQueueStats qm' id) ->
  (forall id, qm_getQueueItems qm id 0 (Int 1000) = qm_getQueueItems qm' id 0 (Int 1000)) ->
  contribution qm q = contribution qm' q.
Proof. intros Hst Hit. unfold contribution. by rewrite Hst, Hit. Qed.

Lemma sum_contributions_ext (qm qm' : Engine) (qs : list Queue) :
  (forall id, qm_getQueueStats qm id = qm_getQueueStats qm' id) ->
  (forall id, qm_getQueueItems qm id 0 (Int 1000) = qm_getQueueItems qm' id 0 (Int 1000)) ->
  sum_contributions qm qs = sum_contributions qm' qs.
Proof.
  intros Hst Hit. induction qs as [| q qs IH]; simpl; [reflexivity |].
  by rewrite IH, (contribution_ext qm qm' q Hst Hit).
Qed.

(** X4. The snapshot does not depend on the order in which the engine
    lists the queues: two engine states that answer alike, except that
    the listing of one is a reordering of the listing of the other, give
    the same snapshot. *)
Theorem stats_order_independent (qm qm' : Engine) (clients : gset string)
    (c0 : Counters) (listing listing' : QueueListing) :
  qm_getSystemStats qm = qm_getSystemStats qm' ->
  (forall id, qm_getQueueStats qm id = qm_getQueueStats qm' id) ->
  (forall id, qm_getQueueItems qm id 0 (Int 1000) = qm_getQueueItems qm' id 0 (Int 1000)) ->
  qm_getAllQueues qm 1000 = Returned listing ->
  qm_getAllQueues qm' 1000 = Returned listing' ->
  queues listing ≡ₚ queues listing' ->
  total listing = total listing' ->
  fst (run (getSystemStats (Some qm) clients) c0)
  = fst (run (getSystemStats (Some qm') clients) c0).
Proof.
  intros Hsys Hst Hit Hl Hl' Hperm Htotal.
  rewrite !getSystemStats_run, <- Hsys, Hl, Hl'.
  destruct (qm_getSystemStats qm) as [systemStats | e]; [| reflexivity].
  cbn [fst]. rewrite <- Htotal.
  assert (E : sum_contributions qm (queues listing)
              = sum_contributions qm' (queues listing')).
  { rewrite (sum_contributions_perm qm _ _ Hperm).
    by apply sum_contributions_ext. }
  by rewrite E.
Qed.

Lemma stats_order_independent_witness :
  let qm := InMemory.engine InMemory.five_queues in
  let listing' :=
    {| queues := reverse (fmap (M := list) InMemory.sq_queue InMemory.five_queues);
       total := Some 5 |} in
  let qm' :=
    {| eventEmitter := eventEmitter qm;
       qm_healthCheck := qm_healthCheck qm;
       qm_getSystemStats := qm_getSystemStats qm;
       qm_getAllQueues := fun _ => Returned listing';
       qm_getQueueStats := qm_getQueueStats qm;
       qm_getQueueItems := qm_getQueueItems qm;
       qm_createQueue := qm_createQueue qm;
       qm_deleteQueue := qm_deleteQueue qm |} in
  fst (run (getSystemStats (Some qm) ∅) zero_counters)
  = fst (run (getSystemStats (Some qm') ∅) zero_counters).
Proof.
  intros qm listing' qm'.
  apply (stats_order_independent qm qm' ∅ zero_counters
           {| queues := fmap (M := list) InMemory.sq_queue InMemory.five_queues;
              total := Some 5 |}
           listing');
    try reflexivity.
  unfold listing'. cbn [queues]. symmetry. apply reverse_Permutation.
Defined.

(** ** The routes, with the engine present *)

Lemma get_api_system_stats_run (qm : option Engine) (clients : gset string) :
  run (get_api_system_stats qm clients) tt =
  match run (getSystemStats qm clients) zero_counters with
  | (Returned stats, log) => (Returned (json (PStats stats)), log)
  | (Thrown e, log) => (Returned (status_json 500 (error_object e)), log)
  end.
Proof.
  unfold run, get_api_system_stats, try_catch, bind, call_fn.
  destruct (getSystemStats qm clients zero_counters []) as [[[stats | e] c] log];
    reflexivity.
Qed.

Lemma no_mutation_stats_calls (qm : Engine) (qs : list Queue) :
  Forall (fun c => is_mutation c = false) (flat_map (stats_calls qm) qs).
Proof.
  apply Forall_forall. intros c Hc. apply stats_calls_elem in Hc.
  destruct Hc as (q & _ & [-> | [-> _]]); reflexivity.
Qed.

Lemma no_mutation_fetches (stop : jsnum) (qs : list Queue) :
  Forall (fun c => is_mutation c = false)
         ((fun q => CallGetQueueItems (queue_id q) 0 stop) <$> qs).
Proof.
  apply Forall_forall. intros c Hc.
  apply list_elem_of_fmap in Hc as (q & -> & _). reflexivity.
Qed.

(** X5. The five GET routes are read-only and never throw: whatever the
    engine answers, and whether it is present or not, each returns a
    response, and none of the engine calls it makes is a createQueue or
    a deleteQueue. *)
Theorem get_routes_read_only (qm : option Engine) (clients : gset string)
    (query_limit : jsval) :
  let safe {S} (handler : M S Response) (locals : S) :=
    (exists response, fst (run handler locals) = Returned response)
    /\ Forall (fun c => is_mutation c = false) (snd (run handler locals)) in
  safe (get_api_health qm) tt
  /\ safe (get_api_system_stats qm clients) tt
  /\ safe (get_api_queues qm) tt
  /\ (forall s0, safe (get_api_jobs qm query_limit) s0)
  /\ (forall s0, safe (get_api_activity_recent qm query_limit) s0).
Proof.
  intros safe. subst safe. cbv beta.
  destruct qm as [qm |].
  - repeat split.
    + unfold run, get_api_health, try_catch, bind, healthCheck, await.
      destruct (qm_healthCheck qm); simpl; eauto.
    + unfold run, get_api_health, try_catch, bind, healthCheck, await.
      destruct (qm_healthCheck qm); simpl; repeat constructor.
    + rewrite get_api_system_stats_run, getSystemStats_run.
      destruct (qm_getSystemStats qm); [| simpl; eauto].
      destruct (qm_getAllQueues qm 1000); simpl; eauto.
    + rewrite get_api_system_stats_run, getSystemStats_run.
      destruct (qm_getSystemStats qm); [| simpl; repeat constructor].
      destruct (qm_getAllQueues qm 1000); cbn [snd]; [| repeat constructor].
      apply Forall_app. split; [repeat constructor | apply no_mutation_stats_calls].
    + unfold run, get_api_queues, try_catch, bind, getAllQueues, await.
      destruct (qm_getAllQueues qm 1000); simpl; eauto.
    + unfold run, get_api_queues, try_catch, bind, getAllQueues, await.
      destruct (qm_getAllQueues qm 1000); simpl; repeat constructor.
    + rewrite get_api_jobs_run. cbv zeta.
      destruct (qm_getAllQueues qm 1000); simpl; eauto.
    + rewrite get_api_jobs_run. cbv zeta.
      destruct (qm_getAllQueues qm 1000); cbn [snd]; [| repeat constructor].
      constructor; [reflexivity | apply no_mutation_fetches].
    + rewrite get_api_activity_recent_run.
      destruct (qm_getAllQueues qm 1000); simpl; eauto.
    + rewrite get_api_activity_recent_run.
      destruct (qm_getAllQueues qm 1000); cbn [snd]; [| repeat constructor].
      constructor; [reflexivity | apply no_mutation_fetches].
  - repeat split; simpl; eauto; constructor.
Qed.

(** X6. With the engine present, a GET route answers 500 exactly when
    its first failing engine call is one it does not guard, and the body
    carries that call's message: healthCheck for /api/health (with
    status "unhealthy"), getSystemStats or the listing for
    /api/system/stats, the listing for /api/queues, /api/jobs and
    /api/activity/recent.  On success /api/health and /api/queues hand
    the engine's answer on unchanged. *)
Theorem get_routes_failures (qm : Engine) (clients : gset string) (query_limit : jsval) :
  (forall health, qm_healthCheck qm = Returned health ->
     fst (run (get_api_health (Some qm)) tt) = Returned (json (PObject health)))
  /\ (forall e, qm_healthCheck qm = Thrown e ->
        fst (run (get_api_health (Some qm)) tt)
        = Returned (status_json 500
            (PObject (<["error" := JStr e]> {[ "status" := JStr "unhealthy" ]}))))
  /\ (forall listing, qm_getAllQueues qm 1000 = Returned listing ->
        fst (run (get_api_queues (Some qm)) tt) = Returned (json (PQueues listing))
        /\ (forall s0, exists out,
              fst (run (get_api_jobs (Some qm) query_limit) s0)
              = Returned (json (PJobs out)))
        /\ (forall s0, exists out,
              fst (run (get_api_activity_recent (Some qm) query_limit) s0)
              = Returned (json (PActivity out))))
  /\ (forall e, qm_getAllQueues qm 1000 = Thrown e ->
        fst (run (get_api_queues (Some qm)) tt)
        = Returned (status_json 500 (error_object e))
        /\ (forall s0, fst (run (get_api_jobs (Some qm) query_limit) s0)
                       = Returned (status_json 500 (error_object e)))
        /\ (forall s0, fst (run (get_api_activity_recent (Some qm) query_limit) s0)
                       = Returned (status_json 500 (error_object e))))
  /\ (forall e,
        (qm_getSystemStats qm = Thrown e
         \/ ((exists systemStats, qm_getSystemStats qm = Returned systemStats)
             /\ qm_getAllQueues qm 1000 = Thrown e)) ->
        fst (run (get_api_system_stats (Some qm) clients) tt)
        = Returned (status_json 500 (error_object e)))
  /\ (forall systemStats listing,
        qm_getSystemStats qm = Returned systemStats ->
        qm_getAllQueues qm 1000 = Returned listing ->
        exists snapshot,
          fst (run (get_api_system_stats (Some qm) clients) tt)
          = Returned (json (PStats snapshot))).
Proof.
  split; [| split; [| split; [| split; [| split]]]].
  - intros health H. unfold run, get_api_health, try_catch, bind, healthCheck, await.
    by rewrite H.
  - intros e H. unfold run, get_api_health, try_catch, bind, healthCheck, await.
    by rewrite H.
  - intros listing H. split; [| split].
    + unfold run, get_api_queues, try_catch, bind, getAllQueues, await. by rewrite H.
    + intros s0. rewrite get_api_jobs_run, H. simpl. eauto.
    + intros s0. rewrite get_api_activity_recent_run, H. simpl. eauto.
  - intros e H. split; [| split].
    + unfold run, get_api_queues, try_catch, bind, getAllQueues, await. by rewrite H.
    + intros s0. by rewrite get_api_jobs_run, H.
    + intros s0. by rewrite get_api_activity_recent_run, H.
  - intros e [H | [[systemStats Hs] Hl]];
      rewrite get_api_system_stats_run, getSystemStats_run.
    + by rewrite H.
    + by rewrite Hs, Hl.
  - intros systemStats listing Hs Hl.
    rewrite get_api_system_stats_run, getSystemStats_run, Hs, Hl. simpl. eauto.
Qed.

Lemma get_routes_failures_witness :
  let qm := InMemory.with_failing_system_stats (InMemory.engine InMemory.six_statuses) in
  fst (run (get_api_system_stats (Some qm) ∅) tt)
  = Returned (status_json 500 (error_object "Connection is closed")).
Proof.
  intros qm.
  destruct (get_routes_failures qm ∅ JUndefined) as (_ & _ & _ & _ & H & _).
  apply H. left. reflexivity.
Defined.

(** ** The mutating routes *)

Lemma delete_api_queue_run (qm : Engine) (queueId : string) :
  run (delete_api_queue (Some qm) queueId) tt =
  (match qm_deleteQueue qm queueId with
   | Returned _ => Returned (json (PObject {[ "success" := JBool true ]}))
   | Thrown e => Returned (status_json 400 (error_object e))
   end,
   [ CallDeleteQueue queueId ]).
Proof.
  unfold run, delete_api_queue, try_catch, bind, deleteQueue, await.
  destruct (qm_deleteQueue qm queueId); reflexivity.
Qed.

(** X7. The two mutating routes never throw and never answer 500, make
    at most one engine call, and turn a rejection by the engine into a
    400 carrying the engine's message.  DELETE /api/queues/:queueId calls
    deleteQueue with the id of the path, once, and answers {success:
    true} when it resolves; POST /api/queues with a valid body answers
    with the queue object the engine returned, unchanged. *)
Theorem mutating_routes (qm : Engine) (queueId : string) (body : gmap string jsval) :
  snd (run (delete_api_queue (Some qm) queueId) tt) = [ CallDeleteQueue queueId ]
  /\ (qm_deleteQueue qm queueId = Returned tt ->
      fst (run (delete_api_queue (Some qm) queueId) tt)
      = Returned (json (PObject {[ "success" := JBool true ]})))
  /\ (forall e, qm_deleteQueue qm queueId = Thrown e ->
        fst (run (delete_api_queue (Some qm) queueId) tt)
        = Returned (status_json 400 (error_object e)))
  /\ (validationResult body = [] ->
      let outcome_of_create :=
        qm_createQueue qm (body_field body "name") (body_field body "queueId")
          (body_field body "description")
          (js_or (body_field body "maxSize") (JNum 10000)) in
      (forall queue, outcome_of_create = Returned queue ->
         fst (run (post_api_queues (Some qm) body) tt) = Returned (json (PObject queue)))
      /\ (forall e, outcome_of_create = Thrown e ->
            fst (run (post_api_queues (Some qm) body) tt)
            = Returned (status_json 400 (error_object e))))
  /\ (exists response,
        fst (run (post_api_queues (Some qm) body) tt) = Returned response
        /\ (status response = 200 \/ status response = 400)
        /\ (length (snd (run (post_api_queues (Some qm) body) tt)) <= 1)%nat).
Proof.
  rewrite delete_api_queue_run. cbn [fst snd].
  split; [reflexivity |]. split; [by intros -> |]. split; [by intros e -> |].
  split.
  - intros Hv. cbv zeta.
    rewrite (post_api_queues_valid qm body Hv). cbn [fst].
    split; [by intros queue -> | by intros e ->].
  - destruct (validationResult body) as [| err errs] eqn:Hv.
    + rewrite (post_api_queues_valid qm body Hv). cbn [fst snd].
      destruct (qm_createQueue qm _ _ _ _); eexists;
        (split; [reflexivity |]); simpl; split; auto.
    + rewrite post_api_queues_invalid by (rewrite Hv; discriminate).
      eexists. split; [reflexivity |]. simpl. split; [by right | lia].
Qed.

Lemma mutating_routes_witness :
  let qm := InMemory.engine InMemory.three_queues in
  fst (run (delete_api_queue (Some qm) "nowhere") tt)
  = Returned (status_json 400 (error_object "Queue not found")).
Proof.
  intros qm.
  destruct (mutating_routes qm "nowhere" ∅) as (_ & _ & H & _).
  apply H. reflexivity.
Defined.

(** ** Validation *)




(** ** The limit of the collecting routes *)

Lemma slice0_NaN {A} (l : list A) : slice0 l NaN = [].
Proof. reflexivity. Qed.

Lemma slice0_zero {A} (l : list A) : slice0 l (Int 0) = [].
Proof. unfold slice0. simpl. by rewrite Z.min_l by lia. Qed.

Lemma slice0_all {A} (l : list A) (L : Z) :
  Z.of_nat (length l) <= L -> slice0 l (Int L) = l.
Proof.
  intros HL. unfold slice0.
  destruct (Z.ltb_spec L 0) as [Hneg | _]; [lia |].
  apply take_ge. lia.
Qed.

Section SliceFacts.
Context {A : Type} (key : A -> Z).

(** What [l.sort(compare).slice(0, L)] returns for a negative [L]. *)
Lemma sorted_slice_negative (l : list A) (L : Z) :
  L < 0 ->
  let out := slice0 (array_sort (newest_first key) l) (Int L) in
  Sorted (descending key) out
  /\ exists dropped,
      out ++ dropped ≡ₚ l
      /\ Z.of_nat (length dropped) = Z.min (- L) (Z.of_nat (length l))
      /\ (forall x y, x ∈ out -> y ∈ dropped -> key y <= key x).
Proof.
  intros HL out. subst out. unfold slice0.
  destruct (Z.ltb_spec L 0) as [_ | Hpos]; [| lia].
  set (sorted := array_sort (newest_first key) l).
  set (n := Z.to_nat (Z.max (Z.of_nat (length sorted) + L) 0)).
  assert (Hsorted : Sorted (descending key) sorted) by apply array_sort_sorted.
  assert (Hlen : length sorted = length l).
  { apply Permutation_length, array_sort_perm. }
  split; [by apply Sorted_take |].
  exists (drop n sorted). split; [| split].
  - rewrite take_drop. apply array_sort_perm.
  - rewrite length_drop. subst n. lia.
  - intros x y Hx Hy.
    pose proof (@Sorted_StronglySorted A (descending key) (descending_trans key)
                  sorted Hsorted) as Hstrong.
    rewrite <- (take_drop n sorted) in Hstrong.
    exact (StronglySorted_app_1_elem_of _ _ _ _ _ Hstrong Hx Hy).
Qed.

(** What it returns when [L] is at least the length: everything, and
    elements with the same key in the order they had. *)
Lemma sorted_slice_all (l : list A) (L : Z) :
  Z.of_nat (length l) <= L ->
  let out := slice0 (array_sort (newest_first key) l) (Int L) in
  out ≡ₚ l
  /\ Sorted (descending key) out
  /\ (forall k, filter (fun a => key a = k) out = filter (fun a => key a = k) l).
Proof.
  intros HL out. subst out.
  rewrite slice0_all.
  - split; [apply array_sort_perm |]. split; [apply array_sort_sorted |].
    intros k. apply array_sort_stable.
  - rewrite (Permutation_length (array_sort_perm key l)). exact HL.
Qed.
End SliceFacts.

(** X9. When the listing succeeds, GET /api/jobs and GET
    /api/activity/recent call the listing once and then fetch the items
    of every listed queue once, in the order of the listing, going on
    after a fetch that failed.  GET /api/jobs asks each queue for the
    range 0 to parseInt(limit) - 1; GET /api/activity/recent asks for the
    range 0 to 10 whatever the limit is. *)
Theorem collecting_routes_engine_calls (qm : Engine) (query_limit : jsval)
    (listing : QueueListing) :
  qm_getAllQueues qm 1000 = Returned listing ->
  (forall s0,
     snd (run (get_api_jobs (Some qm) query_limit) s0)
     = CallGetAllQueues 1000
       :: ((fun q => CallGetQueueItems (queue_id q) 0
                       (num_sub (parseInt (with_default query_limit 100)) 1))
             <$> queues listing))
  /\ (forall s0,
        snd (run (get_api_activity_recent (Some qm) query_limit) s0)
        = CallGetAllQueues 1000
          :: ((fun q => CallGetQueueItems (queue_id q) 0 (Int 10)) <$> queues listing)).
Proof.
  intros Hl. split; intros s0.
  - by rewrite get_api_jobs_run, Hl.
  - by rewrite get_api_activity_recent_run, Hl.
Qed.

Lemma collecting_routes_engine_calls_witness :
  let qm := InMemory.with_failing_items "a" (InMemory.engine InMemory.three_queues) in
  snd (run (get_api_jobs (Some qm) (JStr "5")) [])
  = [ CallGetAllQueues 1000; CallGetQueueItems "a" 0 (Int 4);
      CallGetQueueItems "b" 0 (Int 4); CallGetQueueItems "c" 0 (Int 4) ].
Proof.
  intros qm.
  destruct (collecting_routes_engine_calls qm (JStr "5")
              {| queues := fmap (M := list) InMemory.sq_queue InMemory.three_queues;
                 total := Some 3 |} eq_refl) as [H _].
  exact (H []).
Defined.

(** X10. The limit of GET /api/jobs at its edges, the listing
    succeeding: a limit that parseInt cannot read (NaN) and a limit of 0
    give an empty array with status 200; a negative limit -k does not
    give an empty array but drops the k oldest of the collected jobs and
    returns the rest, newest first. *)
Theorem all_jobs_limit_edges (qm : Engine) (query_limit : jsval)
    (listing : QueueListing) (s0 : list AnnotatedJob) :
  qm_getAllQueues qm 1000 = Returned listing ->
  let n := parseInt (with_default query_limit 100) in
  let response := fst (run (get_api_jobs (Some qm) query_limit) s0) in
  (n = NaN \/ n = Int 0 -> response = Returned (json (PJobs [])))
  /\ (forall L, n = Int L -> L < 0 ->
        exists out dropped,
          response = Returned (json (PJobs out))
          /\ Sorted (descending (fun x => job_addedAt (aj_job x))) out
          /\ out ++ dropped ≡ₚ flat_map (collected_jobs qm n) (queues listing)
          /\ Z.of_nat (length dropped)
             = Z.min (- L)
                 (Z.of_nat (length (flat_map (collected_jobs qm n) (queues listing))))
          /\ (forall x y, x ∈ out -> y ∈ dropped ->
                job_addedAt (aj_job y) <= job_addedAt (aj_job x))).
Proof.
  intros Hl n response. subst response.
  rewrite get_api_jobs_run, Hl. cbv zeta. fold n. cbn [fst]. split.
  - intros [-> | ->]; [by rewrite slice0_NaN | by rewrite slice0_zero].
  - intros L HnL HL. rewrite HnL.
    destruct (sorted_slice_negative (fun x => job_addedAt (aj_job x))
                (flat_map (collected_jobs qm (Int L)) (queues listing)) L HL)
      as (Hsorted & dropped & Hperm & Hlen & Hold).
    eexists. exists dropped. split; [reflexivity |]. repeat split; assumption.
Qed.

Lemma all_jobs_limit_edges_witness :
  let qm := InMemory.engine InMemory.three_queues in
  fst (run (get_api_jobs (Some qm) (JStr "none")) []) = Returned (json (PJobs [])).
Proof.
  intros qm.
  destruct (all_jobs_limit_edges qm (JStr "none")
              {| queues := fmap (M := list) InMemory.sq_queue InMemory.three_queues;
                 total := Some 3 |} [] eq_refl) as [H _].
  apply H. left. reflexivity.
Defined.

(** X11. When the limit of GET /api/jobs is at least the number of jobs
    collected, nothing is dropped: the answer is a rearrangement of the
    annotated jobs of all the queues whose fetch succeeded, newest first,
    and jobs created at the same instant keep the order in which they
    were collected (the order of the listing, then of the fetch). *)
Theorem all_jobs_complete (qm : Engine) (query_limit : jsval) (L : Z)
    (listing : QueueListing) (s0 : list AnnotatedJob) :
  qm_getAllQueues qm 1000 = Returned listing ->
  parseInt (with_default query_limit 100) = Int L ->
  Z.of_nat (length (flat_map (collected_jobs qm (Int L)) (queues listing))) <= L ->
  exists out,
    fst (run (get_api_jobs (Some qm) query_limit) s0) = Returned (json (PJobs out))
    /\ out ≡ₚ flat_map (collected_jobs qm (Int L)) (queues listing)
    /\ Sorted (descending (fun x => job_addedAt (aj_job x))) out
    /\ (forall t,
          filter (fun x => job_addedAt (aj_job x) = t) out
          = filter (fun x => job_addedAt (aj_job x) = t)
              (flat_map (collected_jobs qm (Int L)) (queues listing))).
Proof.
  intros Hl Hparse Hlen.
  rewrite get_api_jobs_run, Hl. cbv zeta. rewrite Hparse. cbn [fst].
  destruct (sorted_slice_all (fun x => job_addedAt (aj_job x)) _ L Hlen)
    as (Hperm & Hsorted & Hstable).
  eexists. split; [reflexivity |]. repeat split; assumption.
Qed.

Lemma all_jobs_complete_witness :
  let qm := InMemory.engine InMemory.three_queues in
  exists out,
    fst (run (get_api_jobs (Some qm) JUndefined) []) = Returned (json (PJobs out))
    /\ length out = 3%nat.
Proof.
  intros qm.
  destruct (all_jobs_complete qm JUndefined 100
              {| queues := fmap (M := list) InMemory.sq_queue InMemory.three_queues;
                 total := Some 3 |} [] eq_refl eq_refl)
    as (out & Hrun & Hperm & _).
  - vm_compute. discriminate.
  - exists out. split; [exact Hrun |].
    apply Permutation_length in Hperm. rewrite Hperm. reflexivity.
Defined.

(** X12. For a limit that parses to [L >= 0] (20 when absent) and a
    succeeding listing, every entry of GET /api/activity/recent is
    {type: "Job", description: "Job <id> in <queue name>", status,
    timestamp, queueId} for a job that the fetch of the range 0 to 10 of
    a listed queue returned; a queue whose fetch fails adds nothing and
    raises no error; the entries are sorted by timestamp descending, at
    most [L], and no entry left out is newer than one returned. *)
Theorem recent_activity_feed (qm : Engine) (query_limit : jsval) (L : Z)
    (listing : QueueListing) (s0 : list Activity) :
  parseInt (with_default query_limit 20) = Int L ->
  0 <= L ->
  qm_getAllQueues qm 1000 = Returned listing ->
  exists out rest,
    fst (run (get_api_activity_recent (Some qm) query_limit) s0)
      = Returned (json (PActivity out))
    /\ (forall x, x ∈ out ->
          exists queue jobs job,
            queue ∈ queues listing
            /\ qm_getQueueItems qm (queue_id queue) 0 (Int 10) = Returned jobs
            /\ job ∈ jobs
            /\ x = {| act_type := "Job";
                      act_description :=
                        "Job " +:+ job_id job +:+ " in " +:+ queue_name queue;
                      act_status := job_status job;
                      act_timestamp := job_addedAt job;
                      act_queueId := queue_id queue |})
    /\ Sorted (descending act_timestamp) out
    /\ Z.of_nat (length out) <= L
    /\ out ++ rest ≡ₚ flat_map (collected_activity qm) (queues listing)
    /\ (forall x y, x ∈ out -> y ∈ rest -> act_timestamp y <= act_timestamp x)
    /\ (rest = [] \/ Z.of_nat (length out) = L).
Proof. exact (recent_activity_general qm query_limit L listing s0). Qed.

Lemma recent_activity_feed_witness :
  let qm := InMemory.with_failing_items "q2" (InMemory.engine InMemory.five_queues) in
  exists out,
    fst (run (get_api_activity_recent (Some qm) (JStr "3")) [])
      = Returned (json (PActivity out))
    /\ Sorted (descending act_timestamp) out
    /\ Z.of_nat (length out) <= 3.
Proof.
  intros qm.
  destruct (recent_activity_feed qm (JStr "3") 3
              {| queues := fmap (M := list) InMemory.sq_queue InMemory.five_queues;
                 total := Some 5 |} [])
    as (out & rest & Hrun & _ & Hsorted & Hlen & _);
    [reflexivity | lia | reflexivity |].
  exists out. repeat split; assumption.
Defined.

(** ** The real-time side *)

Lemma getStats_demo_snapshot (clients : gset string) :
  run (getSystemStats None clients) zero_counters
  = (Returned {| snap_top := ∅;
                 snap_system := system_fields ∅ zero_counters 0
                                  (Z.of_nat (size clients)) |}, []).
Proof. reflexivity. Qed.

(** X13. What the connection handler sends: on connect, one "connected"
    greeting, to the new socket only; on getStats, one message to the
    asking socket only, a statsUpdate with the snapshot [getSystemStats]
    computes for the current set of clients, or, when that fails, an
    error saying "Failed to get stats" without the engine's message;
    nothing on subscribeQueue, unsubscribeQueue and disconnect.  A
    getStats changes nothing in the server's state. *)
Theorem connection_replies (qm : option Engine) (st : Server) (id queueId : string) :
  snd (on_client_event true qm (Connect id) st)
    = [ (id, MConnected "Connected to ReQueue Dashboard") ]
  /\ fst (on_client_event true qm (GetStats id) st) = st
  /\ (forall stats,
        fst (run (getSystemStats qm (connectedClients st)) zero_counters) = Returned stats ->
        snd (on_client_event true qm (GetStats id) st) = [ (id, MStatsUpdate stats) ])
  /\ (forall e,
        fst (run (getSystemStats qm (connectedClients st)) zero_counters) = Thrown e ->
        snd (on_client_event true qm (GetStats id) st)
        = [ (id, MError "Failed to get stats") ])
  /\ snd (on_client_event true qm (SubscribeQueue id queueId) st) = []
  /\ snd (on_client_event true qm (UnsubscribeQueue id queueId) st) = []
  /\ snd (on_client_event true qm (Disconnect id) st) = [].
Proof.
  repeat split; simpl;
    try (destruct (run (getSystemStats qm (connectedClients st)) zero_counters)
           as [[stats | e] log]; simpl; congruence).
Qed.

Lemma connection_replies_witness :
  let qm := Some (InMemory.with_failing_system_stats
                    (InMemory.engine InMemory.six_statuses)) in
  snd (on_client_event true qm (GetStats "s1") initial_server)
  = [ ("s1", MError "Failed to get stats") ].
Proof.
  intros qm.
  destruct (connection_replies qm initial_server "s1" "") as (_ & _ & _ & H & _).
  apply (H "Connection is closed"). reflexivity.
Defined.

(** X14. The connectedClients a client reads through getStats is the
    live count: after any sequence of events socket.io can deliver,
    starting from the empty server, it is the number of connects minus
    the number of disconnects of that sequence, in demo mode and, when
    the stats computation succeeds, with the engine present. *)
Theorem getStats_reports_live_count (qm : option Engine) (trace : list ClientEvent)
    (id : string) :
  possible_trace true qm trace initial_server ->
  let st := on_client_events true qm trace initial_server in
  forall stats,
    snd (on_client_event true qm (GetStats id) st) = [ (id, MStatsUpdate stats) ] ->
    snap_system stats !! "connectedClients" = Some (JNum (Zsum count_change trace)).
Proof.
  intros Htrace st stats Hreply.
  assert (Hcount : client_count st = Zsum count_change trace).
  { subst st. rewrite client_trace_count; [reflexivity | reflexivity | exact Htrace]. }
  unfold client_count in Hcount. simpl in Hreply.
  destruct qm as [qm |].
  - rewrite getSystemStats_run in Hreply.
    destruct (qm_getSystemStats qm) as [systemStats | e]; [| discriminate Hreply].
    destruct (qm_getAllQueues qm 1000) as [listing | e]; [| discriminate Hreply].
    injection Hreply as <-. cbn [snap_system]. rewrite <- Hcount.
    apply system_fields_lookup.
  - rewrite getStats_demo_snapshot in Hreply. injection Hreply as <-.
    cbn [snap_system]. rewrite <- Hcount. apply system_fields_lookup.
Qed.

Lemma getStats_reports_live_count_witness :
  let trace := [ Connect "s1"; Connect "s2"; SubscribeQueue "s1" "mail";
                 Disconnect "s1"; Connect "s3" ] in
  let st := on_client_events true None trace initial_server in
  let stats :=
    {| snap_top := ∅;
       snap_system := system_fields ∅ zero_counters 0
                        (Z.of_nat (size (connectedClients st))) |} in
  snd (on_client_event true None (GetStats "s2") st) = [ ("s2", MStatsUpdate stats) ]
  /\ snap_system stats !! "connectedClients" = Some (JNum 2).
Proof.
  intros trace st stats.
  assert (Hreply : snd (on_client_event true None (GetStats "s2") st)
                   = [ ("s2", MStatsUpdate stats) ]) by reflexivity.
  split; [exact Hreply |].
  apply (getStats_reports_live_count None trace "s2"); [| exact Hreply].
  simpl. repeat split; apply (bool_decide_unpack _); vm_compute; exact I.
Defined.

Lemma websocket_off_clients (qm : option Engine) (trace : list ClientEvent) (st : Server) :
  connectedClients (on_client_events false qm trace st) = connectedClients st.
Proof.
  revert st. induction trace as [| ev trace IH]; intros st; simpl; [reflexivity |].
  rewrite IH. by destruct ev.
Qed.

(** X15. A features object given without a truthy websocket field turns
    the real-time side off (the default {websocket: true} applies only
    when features is left out altogether).  Then sockets can still open,
    but they are never counted, nothing is sent to them, no listener is
    put on the engine's emitter and no engine event reaches anyone. *)
Theorem real_time_off (options : Options) (features : Features)
    (created : outcome Engine) (trace : list ClientEvent) :
  opt_features options = Some features ->
  truthy (feat_websocket features) = false ->
  let ws := d_websocket (createDashboard options) in
  let qm := fst (initializeQueueManager ws created) in
  ws = false
  /\ connectedClients (on_client_events ws qm trace initial_server) = ∅
  /\ (forall ev st, snd (on_client_event ws qm ev st) = [])
  /\ snd (initializeQueueManager ws created) = []
  /\ (forall name data st,
        engine_emits (snd (initializeQueueManager ws created)) name data st = []).
Proof.
  intros Hf Hws ws qm.
  assert (Hoff : ws = false).
  { subst ws. unfold createDashboard. simpl. by rewrite Hf. }
  clearbody ws. subst ws. subst qm.
  split; [reflexivity |]. split; [apply websocket_off_clients |].
  split; [by intros [] st |].
  assert (Hnone : snd (initializeQueueManager false created) = []) by (by destruct created).
  split; [exact Hnone |]. intros name data st. by rewrite Hnone.
Qed.

Lemma real_time_off_witness :
  let options :=
    {| opt_port := JUndefined; opt_redis := None;
       opt_features := Some {| feat_authentication := JBool true;
                               feat_websocket := JUndefined;
                               feat_rateLimit := None |} |} in
  let ws := d_websocket (createDashboard options) in
  connectedClients (on_client_events ws None [ Connect "s1"; Connect "s2" ] initial_server)
  = ∅.
Proof.
  intros options ws.
  destruct (real_time_off options
              {| feat_authentication := JBool true; feat_websocket := JUndefined;
                 feat_rateLimit := None |}
              (Thrown "no redis") [ Connect "s1"; Connect "s2" ] eq_refl eq_refl)
    as (_ & H & _).
  exact H.
Defined.

Lemma relay_other_name (name other : string) (data : jsval) (st : Server) :
  name <> other ->
  (if String.eqb (fst (relay name)) other then snd (relay name) data st else []) = [].
Proof.
  intros Hne. simpl. destruct (String.eqb_spec name other); [contradiction | reflexivity].
Qed.

(** X16. The relay passes on the eight events and nothing else: an
    engine event under any other name is delivered to no socket; an
    engine without an event emitter gets no listener; and when the relay
    is set up it holds exactly one listener for each of the eight names. *)
Theorem relay_only_the_eight (websocket : bool) (e : Engine) :
  (forall name data st,
     name ∉ relayed_events ->
     engine_emits (snd (initializeQueueManager websocket (Returned e))) name data st = [])
  /\ (eventEmitter e = false ->
      snd (initializeQueueManager websocket (Returned e)) = [])
  /\ (eventEmitter e = true ->
      fst <$> snd (initializeQueueManager true (Returned e)) = relayed_events).
Proof.
  split; [| split].
  - intros name data st Hname.
    unfold initializeQueueManager, setupRealtimeEvents. cbn [snd].
    destruct websocket; [| reflexivity].
    destruct (eventEmitter e); [| reflexivity]. cbn [negb].
    unfold engine_emits. cbn [flat_map].
    rewrite !relay_other_name; [reflexivity | ..];
      intros <-; apply Hname; apply list_elem_of_In; simpl; tauto.
  - intros He. unfold initializeQueueManager, setupRealtimeEvents. rewrite He.
    by destruct websocket.
  - intros He. unfold initializeQueueManager, setupRealtimeEvents. rewrite He.
    reflexivity.
Qed.

Lemma relay_only_the_eight_witness :
  engine_emits
    (snd (initializeQueueManager true (Returned (InMemory.engine InMemory.three_queues))))
    "jobRetried" (JStr "j1")
    (on_client_events true None [ Connect "s1" ] initial_server)
  = [].
Proof.
  destruct (relay_only_the_eight true (InMemory.engine InMemory.three_queues)) as [H _].
  apply H. intros Hin. apply list_elem_of_In in Hin. simpl in Hin.
  repeat destruct Hin as [Hin | Hin]; try discriminate Hin. exact Hin.
Defined.

Lemma room_of_inj (q q' : string) : room_of q = room_of q' -> q = q'.
Proof. unfold room_of. simpl. intros H. by injection H. Qed.

(** X17. Queue subscriptions: after subscribeQueue(q) the socket is in
    the room "queue:q", after unsubscribeQueue(q) it is not; neither
    changes who is in the room of another queue, nor whether another
    socket is in the room; and neither changes the sets of sockets and
    of connected clients. *)
Theorem queue_rooms (qm : option Engine) (st : Server) (id q : string) :
  let subscribed := fst (on_client_event true qm (SubscribeQueue id q) st) in
  let unsubscribed := fst (on_client_event true qm (UnsubscribeQueue id q) st) in
  in_room id (room_of q) subscribed
  /\ ~ in_room id (room_of q) unsubscribed
  /\ (forall id' q', q' <> q ->
        (in_room id' (room_of q') subscribed <-> in_room id' (room_of q') st)
        /\ (in_room id' (room_of q') unsubscribed <-> in_room id' (room_of q') st))
  /\ (forall id', id' <> id ->
        (in_room id' (room_of q) subscribed <-> in_room id' (room_of q) st)
        /\ (in_room id' (room_of q) unsubscribed <-> in_room id' (room_of q) st))
  /\ sockets subscribed = sockets st /\ connectedClients subscribed = connectedClients st
  /\ sockets unsubscribed = sockets st /\ connectedClients unsubscribed = connectedClients st.
Proof.
  intros subscribed unsubscribed. subst subscribed unsubscribed.
  unfold in_room. simpl. unfold join, leave. fold (room_of q).
  split; [| split; [| split; [| split]]].
  - rewrite lookup_insert_eq. simpl. apply elem_of_union. left. by apply elem_of_singleton.
  - rewrite lookup_insert_eq. simpl. intros Hin. apply elem_of_difference in Hin as [_ Hn].
    apply Hn. by apply elem_of_singleton.
  - intros id' q' Hq.
    assert (Hroom : room_of q <> room_of q') by (intros E; apply room_of_inj in E; congruence).
    by rewrite !lookup_insert_ne.
  - intros id' Hid. rewrite !lookup_insert_eq. simpl. split.
    + rewrite elem_of_union, elem_of_singleton. tauto.
    + rewrite elem_of_difference, elem_of_singleton. tauto.
  - repeat split.
Qed.

Lemma queue_rooms_witness :
  let st := fst (on_client_event true None (SubscribeQueue "s1" "mail") initial_server) in
  in_room "s1" (room_of "mail")
    (fst (on_client_event true None (SubscribeQueue "s1" "sms") st))
  /\ ~ in_room "s1" (room_of "mail")
       (fst (on_client_event true None (UnsubscribeQueue "s1" "mail") st)).
Proof.
  intros st.
  destruct (queue_rooms None st "s1" "sms") as (_ & _ & Hother & _).
  destruct (queue_rooms None st "s1" "mail") as (_ & Hgone & _).
  split; [| exact Hgone].
  apply (Hother "s1" "mail"); [discriminate |].
  exact (proj1 (queue_rooms None initial_server "s1" "mail")).
Defined.

(** ** The options *)

Lemma truthy_js_or (v d : jsval) : truthy d = true -> truthy (js_or v d) = true.
Proof. intros Hd. unfold js_or. by destruct (truthy v) eqn:E. Qed.

(** X18. What [createDashboard] makes of its options.  A default
    replaces a property only when the whole property is left out: the
    real-time side is on exactly when features is left out or its
    websocket field is truthy, and a redis object that is given is used
    as it is.  The port is 3000 only when it is undefined.  The rate
    limiter always gets a truthy window and cap: a window or cap that is
    missing or 0 becomes 15 minutes or 1000 requests, any other value is
    used as given. *)
Theorem createDashboard_options (options : Options) :
  let dashboard := createDashboard options in
  (d_websocket dashboard = true <->
   opt_features options = None
   \/ exists features, opt_features options = Some features
        /\ truthy (feat_websocket features) = true)
  /\ (forall redis, opt_redis options = Some redis -> d_redis dashboard = redis)
  /\ (opt_redis options = None -> d_redis dashboard = default_redis)
  /\ (opt_port options = JUndefined -> d_port dashboard = JNum 3000)
  /\ (opt_port options <> JUndefined -> d_port dashboard = opt_port options)
  /\ truthy (d_windowMs dashboard) = true
  /\ truthy (d_max dashboard) = true
  /\ (forall features limits,
        opt_features options = Some features ->
        feat_rateLimit features = Some limits ->
        (truthy (rl_max limits) = true -> d_max dashboard = rl_max limits)
        /\ (truthy (rl_max limits) = false -> d_max dashboard = JNum 1000)
        /\ (truthy (rl_windowMs limits) = true -> d_windowMs dashboard = rl_windowMs limits)
        /\ (truthy (rl_windowMs limits) = false -> d_windowMs dashboard = JNum 900000))
  /\ ((opt_features options = None
       \/ exists features, opt_features options = Some features
            /\ feat_rateLimit features = None) ->
      d_windowMs dashboard = JNum 900000 /\ d_max dashboard = JNum 1000).
Proof.
  intros dashboard. subst dashboard. unfold createDashboard. cbn [d_websocket d_redis
    d_port d_windowMs d_max].
  split; [| split; [| split; [| split; [| split; [| split; [| split; [| split]]]]]]].
  - destruct (opt_features options) as [features |]; simpl.
    + split; [intros H; right; eauto |].
      intros [H | (f & [= <-] & H)]; [discriminate | exact H].
    + split; [by left | reflexivity].
  - by intros redis ->.
  - by intros ->.
  - by intros ->.
  - intros Hport. destruct (opt_port options); try reflexivity. contradiction.
  - by apply truthy_js_or.
  - by apply truthy_js_or.
  - intros features limits -> Hl. simpl. unfold rateLimit_field, js_or. rewrite Hl.
    repeat split; by intros ->.
  - intros [-> | (features & -> & Hl)]; simpl; unfold rateLimit_field; simpl;
      [| rewrite Hl]; split; reflexivity.
Qed.

Lemma createDashboard_options_witness :
  let options :=
    {| opt_port := JNum 8080; opt_redis := None;
       opt_features := Some {| feat_authentication := JBool false;
                               feat_websocket := JBool true;
                               feat_rateLimit := Some {| rl_windowMs := JNum 60000;
                                                         rl_max := JNum 0 |} |} |} in
  d_max (createDashboard options) = JNum 1000
  /\ d_windowMs (createDashboard options) = JNum 60000.
Proof.
  intros options.
  destruct (createDashboard_options options) as (_ & _ & _ & _ & _ & _ & _ & H & _).
  destruct (H _ _ eq_refl eq_refl) as (_ & Hmax & Hwin & _).
  split; [apply Hmax | apply Hwin]; reflexivity.
Defined.




(** ** Stopping *)





(** ** The standalone server *)

(** X22. With the engine present, the read routes of [createDashboard]
    are the routes of the standalone server: /api/health, /api/queues,
    /api/jobs and /api/activity/recent make the same engine calls and
    give the same response for every request and every engine. *)
Theorem standalone_routes_agree (qm : Engine) (query_limit : jsval) :
  run (Standalone.get_api_health qm) tt = run (get_api_health (Some qm)) tt
  /\ run (Standalone.get_api_queues qm) tt = run (get_api_queues (Some qm)) tt
  /\ (forall s0, run (Standalone.get_api_jobs qm query_limit) s0
                 = run (get_api_jobs (Some qm) query_limit) s0)
  /\ (forall s0, run (Standalone.get_api_activity_recent qm query_limit) s0
                 = run (get_api_activity_recent (Some qm) query_limit) s0).
Proof. repeat split. Qed.

(** X23. The standalone server's POST /api/queues has no validation: for
    every body, also one without a name or a queueId, it makes exactly
    one engine call, createQueue with the body's fields as they are
    (undefined when missing) and a maxSize of 10000 when the body's is
    falsy; it answers with the engine's queue object, or 400 with the
    engine's message. *)
Theorem standalone_create_queue (qm : Engine) (body : gmap string jsval) :
  let name := body_field body "name" in
  let queueId := body_field body "queueId" in
  let description := body_field body "description" in
  let maxSize := if truthy (body_field body "maxSize") then body_field body "maxSize"
                 else JNum 10000 in
  run (Legacy.post_api_queues qm body) tt
  = (match qm_createQueue qm name queueId description maxSize with
     | Returned queue => Returned (json (PObject queue))
     | Thrown e => Returned (status_json 400 (error_object e))
     end,
     [ CallCreateQueue name queueId description maxSize ]).
Proof.
  cbv zeta.
  unfold run, Legacy.post_api_queues, try_catch, bind, createQueue, await, js_or.
  destruct (qm_createQueue qm _ _ _ _); reflexivity.
Qed.

Lemma standalone_stats_run (qm : Engine) (c0 : Counters) :
  fst (run (Standalone.get_api_system_stats qm) c0) =
  match qm_getSystemStats qm with
  | Thrown e => Returned (status_json 500 (error_object e))
  | Returned systemStats =>
      match qm_getAllQueues qm 1000 with
      | Thrown e => Returned (status_json 500 (error_object e))
      | Returned listing =>
          let c := sum_contributions qm (queues listing) in
          Returned (json (PStats
            {| snap_top := es_top systemStats;
               snap_system :=
                 <["totalQueues" := JNum (num_or (total listing) 0)]>
                   (<["failedJobs" := JNum (failedJobs c)]>
                     (<["activeJobs" := JNum (activeJobs c)]>
                       (<["totalJobs" := JNum (totalJobs c)]>
                         (es_system systemStats)))) |}))
      end
  end.
Proof.
  unfold run, Standalone.get_api_system_stats, try_catch, bind, engineSystemStats,
    getAllQueues, await, put, get.
  destruct (qm_getSystemStats qm) as [systemStats | e]; simpl; [| reflexivity].
  destruct (qm_getAllQueues qm 1000) as [listing | e]; simpl; [| reflexivity].
  rewrite stats_loop_run, add_counters_zero_l. reflexivity.
Qed.

(** X24. The standalone server's /api/system/stats answers with the
    snapshot [getSystemStats] computes, except for connectedClients: it
    does not set that field, so the answer carries whatever the engine
    reported under that name, or nothing. *)
Theorem standalone_stats_differ (qm : Engine) (clients : gset string) (c0 : Counters)
    (systemStats : EngineStats) (listing : QueueListing) :
  qm_getSystemStats qm = Returned systemStats ->
  qm_getAllQueues qm 1000 = Returned listing ->
  exists standalone snapshot,
    fst (run (Standalone.get_api_system_stats qm) c0) = Returned (json (PStats standalone))
    /\ fst (run (getSystemStats (Some qm) clients) c0) = Returned snapshot
    /\ snap_top standalone = snap_top snapshot
    /\ (forall k, k <> "connectedClients" ->
          snap_system standalone !! k = snap_system snapshot !! k)
    /\ snap_system standalone !! "connectedClients"
       = es_system systemStats !! "connectedClients"
    /\ snap_system snapshot !! "connectedClients"
       = Some (JNum (Z.of_nat (size clients))).
Proof.
  intros Hs Hl. rewrite standalone_stats_run, getSystemStats_run, Hs, Hl.
  do 2 eexists. split; [reflexivity |]. split; [reflexivity |].
  cbn [snap_top snap_system]. unfold system_fields.
  split; [reflexivity |]. split; [| split].
  - intros k Hk. by rewrite (lookup_insert_ne _ "connectedClients").
  - by rewrite !lookup_insert_ne.
  - by rewrite lookup_insert_eq.
Qed.

Lemma standalone_stats_differ_witness :
  let qm := InMemory.engine InMemory.six_statuses in
  exists standalone,
    fst (run (Standalone.get_api_system_stats qm) zero_counters)
      = Returned (json (PStats standalone))
    /\ snap_system standalone !! "connectedClients" = None
    /\ snap_system standalone !! "activeJobs" = Some (JNum 2).
Proof.
  intros qm.
  destruct (standalone_stats_differ qm ∅ zero_counters
              {| es_top := ∅; es_system := ∅ |}
              {| queues := [InMemory.queue "q1" "Emails"]; total := Some 1 |}
              eq_refl eq_refl)
    as (standalone & snapshot & Hrun & Hsnap & _ & Hsame & Hclients & _).
  exists standalone. split; [exact Hrun |]. split; [exact Hclients |].
  rewrite Hsame by discriminate.
  injection Hsnap as <-. reflexivity.
Defined.
